(** * assessment-craft: attempt lifecycle, answer ledger and scoring

    A shallow embedding of the exam-taking client ([src/pages/TakeExam.tsx]:
    [loadExam], [saveAnswer], [handleAnswerChange], [handleSubmitExam]) over a
    model of the relational store declared by the first migration (tables
    [exams], [questions], [exam_attempts], [answers] and the SQL function
    [generate_access_code]).

    Conventions of the model.
    - A [DECIMAL(5,2)] value is an integer number of hundredths ([Z]): 2.50
      points is [250].  The client adds the points as JavaScript numbers and
      the store rounds what it receives back to two decimals, so the sums are
      the exact decimal sums.
    - A timestamp is a number of milliseconds since the epoch.
    - A UUID is a [string]; [gen_random_uuid()] and [Date.now()] are arguments
      of the operation that consumes them.
    - A table is the list of its rows in insertion order. *)

From stdpp Require Import base option list gmap strings.
From Stdlib Require Import ZArith NArith Ascii Lia.

Local Open Scope Z_scope.

(** ** JSON values and JavaScript's strict equality *)

(** A [JSONB] cell as the client sees it once parsed.  SQL [NULL] and JSON
    [null] both arrive as [null].  Numbers are the option indices that
    [parseInt] produces, so integers. *)
#[warnings="-register-all"]
Inductive json : Type :=
  | JNull
  | JBool (b : bool)
  | JNum (n : Z)
  | JStr (s : string)
  | JArr (items : list json)
  | JObj (fields : list (string * json)).

(** [a === b] where [b] was freshly parsed from a response: primitives are
    compared by value, arrays and objects by reference, and a fresh object is
    no other object. *)
Definition strict_eq (a b : json) : bool :=
  match a, b with
  | JNull, JNull => true
  | JBool x, JBool y => bool_decide (x = y)
  | JNum x, JNum y => bool_decide (x = y)
  | JStr x, JStr y => bool_decide (x = y)
  | _, _ => false
  end.

(** [userAnswer === key] where [userAnswer = answers[question.id]] may be
    [undefined] ([None]); [undefined] is strictly equal to no JSON value. *)
Definition js_strict_eq (userAnswer : option json) (key : json) : bool :=
  match userAnswer with
  | Some v => strict_eq v key
  | None => false
  end.

(** ** The schema *)

Inductive question_type : Type :=
  | multiple_choice | true_false | open_answer | matching.

Inductive exam_status : Type :=
  | draft | active | inactive | completed.

#[global] Instance question_type_eq_dec : EqDecision question_type.
Proof. solve_decision. Defined.

#[global] Instance exam_status_eq_dec : EqDecision exam_status.
Proof. solve_decision. Defined.

Module Exam.
Record t : Type := mk {
  id : string;
  creator_id : string;
  title : string;
  access_code : string;
  time_limit : option Z;          (* minutes *)
  max_attempts : option Z;        (* INTEGER DEFAULT 1, nullable *)
  status : exam_status;
  show_results_immediately : bool
}.
End Exam.

Module Question.
Record t : Type := mk {
  id : string;
  exam_id : string;
  question_text : string;
  question_type : question_type;
  points : Z;                     (* DECIMAL(5,2), in hundredths *)
  order_index : Z;
  options : option (list string);
  correct_answer : json
}.
End Question.

Module Attempt.
Record t : Type := mk {
  id : string;
  exam_id : string;
  student_id : string;
  started_at : Z;
  completed_at : option Z;
  score : option Z;               (* DECIMAL(5,2), in hundredths *)
  total_points : option Z;        (* DECIMAL(5,2), in hundredths *)
  attempt_number : Z
}.
End Attempt.

Module Answer.
Record t : Type := mk {
  id : string;
  attempt_id : string;
  question_id : string;
  answer_value : json;
  is_correct : option bool;
  points_earned : option Z        (* DECIMAL(5,2) DEFAULT 0 *)
}.
End Answer.

Record store : Type := mkStore {
  exams : list Exam.t;
  questions : list Question.t;
  exam_attempts : list Attempt.t;
  answers : list Answer.t
}.

Definition empty_store : store := mkStore [] [] [] [].

(** [DECIMAL(5,2)]: at most three digits before the point. *)
Definition decimal_5_2 (v : Z) : bool :=
  bool_decide (-100000 < v < 100000).

(** ** Queries and statements the client issues *)

(** [.single()]: the one row of the result, an error for none or several. *)
Definition single {A : Type} (rows : list A) : option A :=
  match rows with
  | [r] => Some r
  | _ => None
  end.

(** [.order('attempt_number', { ascending: false })] *)
Fixpoint insert_desc (a : Attempt.t) (l : list Attempt.t) : list Attempt.t :=
  match l with
  | [] => [a]
  | b :: l' =>
      if bool_decide (Attempt.attempt_number b < Attempt.attempt_number a)
      then a :: b :: l'
      else b :: insert_desc a l'
  end.

Definition order_attempt_number_desc (l : list Attempt.t) : list Attempt.t :=
  foldr insert_desc [] l.

(** [from('exam_attempts').select('*').eq('exam_id', e).eq('student_id', s)] *)
Definition attempts_of (st : store) (examId studentId : string) : list Attempt.t :=
  filter (fun a => Attempt.exam_id a = examId ∧ Attempt.student_id a = studentId)
         (exam_attempts st).

Definition select_attempts (st : store) (examId studentId : string) : list Attempt.t :=
  order_attempt_number_desc (attempts_of st examId studentId).

(** [questions.sort((a, b) => a.order_index - b.order_index)], a stable sort. *)
Fixpoint insert_by_order (q : Question.t) (l : list Question.t) : list Question.t :=
  match l with
  | [] => [q]
  | r :: l' =>
      if bool_decide (Question.order_index q < Question.order_index r)
      then q :: r :: l'
      else r :: insert_by_order q l'
  end.

Definition sort_by_order_index (l : list Question.t) : list Question.t :=
  foldl (fun acc q => insert_by_order q acc) [] l.

(** The exam as the client holds it: the row and its embedded questions. *)
Record exam_data : Type := mkExamData {
  exam_row : Exam.t;
  exam_questions : list Question.t
}.

(** [from('exams').select('*, questions( * )').eq('id', e).eq('status',
    'active').single()] *)
Definition select_active_exam (st : store) (examId : string) : option exam_data :=
  match single (filter (fun e => Exam.id e = examId ∧ Exam.status e = active)
                       (exams st)) with
  | Some e =>
      Some (mkExamData e
              (filter (fun q => Question.exam_id q = examId) (questions st)))
  | None => None
  end.

(** [from('answers').select('*').eq('attempt_id', a)] *)
Definition select_answers (st : store) (attemptId : string) : list Answer.t :=
  filter (fun r => Answer.attempt_id r = attemptId) (answers st).

(** The policy "Students can view questions during exam": a question is
    visible while its exam is active.  (The caller is a student; the policy of
    the exam's creator is not modelled.) *)
Definition question_visible (exams : list Exam.t) (q : Question.t) : Prop :=
  Exists (fun e => Exam.id e = Question.exam_id q ∧ Exam.status e = active) exams.

#[global] Instance question_visible_dec es q : Decision (question_visible es q).
Proof. unfold question_visible. apply _. Defined.

Definition visible_question (exams : list Exam.t) (questions : list Question.t)
    (questionId : string) : option Question.t :=
  single (filter (fun q => Question.id q = questionId ∧ question_visible exams q)
                 questions).

(** [from('questions').select('correct_answer').eq('id', q).single()]: the
    [data] of the response, [null] when the row is not there or not visible. *)
Definition select_correct_answer (st : store) (questionId : string) : option json :=
  Question.correct_answer <$> visible_question (exams st) (questions st) questionId.

(** [insert({exam_id, student_id, attempt_number}).select().single()]: the
    other columns take their defaults; the primary key and
    [UNIQUE(exam_id, student_id, attempt_number)] are checked. *)
Definition insert_attempt (st : store) (uuid : string) (now : Z)
    (examId studentId : string) (attemptNumber : Z) : option (Attempt.t * store) :=
  if bool_decide (Exists (fun a => Attempt.id a = uuid) (exam_attempts st)) then None
  else if bool_decide (Exists (fun a => Attempt.exam_id a = examId
                                        ∧ Attempt.student_id a = studentId
                                        ∧ Attempt.attempt_number a = attemptNumber)
                              (exam_attempts st)) then None
  else
    let a := Attempt.mk uuid examId studentId now None None None attemptNumber in
    Some (a, mkStore (exams st) (questions st) (exam_attempts st ++ [a]) (answers st)).

(** The rows of one (attempt, question) pair. *)
Definition same_answer (attemptId questionId : string) (r : Answer.t) : Prop :=
  Answer.attempt_id r = attemptId ∧ Answer.question_id r = questionId.

#[global] Instance same_answer_dec a q r : Decision (same_answer a q r).
Proof. unfold same_answer. apply _. Defined.

(** [update({is_correct, points_earned}).eq('attempt_id', a).eq('question_id',
    q)]: every matching row is rewritten, and no row is created when none
    matches. *)
Definition grade_row (attemptId questionId : string)
    (isCorrect : option bool) (pointsEarned : option Z) (r : Answer.t) : Answer.t :=
  if bool_decide (same_answer attemptId questionId r)
  then Answer.mk (Answer.id r) (Answer.attempt_id r) (Answer.question_id r)
                 (Answer.answer_value r) isCorrect pointsEarned
  else r.

Definition update_answer (st : store) (attemptId questionId : string)
    (isCorrect : option bool) (pointsEarned : option Z) : store :=
  mkStore (exams st) (questions st) (exam_attempts st)
          (grade_row attemptId questionId isCorrect pointsEarned <$> answers st).

(** [update({completed_at, score, total_points}).eq('id', a)]: refused when a
    value does not fit its [DECIMAL(5,2)] column. *)
Definition complete_row (attemptId : string) (now score totalPoints : Z)
    (a : Attempt.t) : Attempt.t :=
  if bool_decide (Attempt.id a = attemptId)
  then Attempt.mk (Attempt.id a) (Attempt.exam_id a) (Attempt.student_id a)
                  (Attempt.started_at a) (Some now) (Some score) (Some totalPoints)
                  (Attempt.attempt_number a)
  else a.

Definition complete_attempt (st : store) (attemptId : string)
    (now score totalPoints : Z) : option store :=
  if decimal_5_2 score && decimal_5_2 totalPoints
  then Some (mkStore (exams st) (questions st)
                     (complete_row attemptId now score totalPoints <$> exam_attempts st)
                     (answers st))
  else None.

(** How [upsert] finds the duplicate of the row it is given.  The call in
    [saveAnswer] names no conflict columns; the client library then resolves
    on the primary key, which the payload leaves to its default, so that a
    second save of the same question runs into
    [UNIQUE(attempt_id, question_id)] and is refused.  The other reading, a
    merge on that pair, is kept as well; the properties below hold for both. *)
Inductive conflict_target : Type :=
  | OnPrimaryKey
  | OnAttemptQuestion.

Definition overwrite_value (attemptId questionId : string) (value : json)
    (r : Answer.t) : Answer.t :=
  if bool_decide (same_answer attemptId questionId r)
  then Answer.mk (Answer.id r) (Answer.attempt_id r) (Answer.question_id r)
                 value (Answer.is_correct r) (Answer.points_earned r)
  else r.

(** [upsert({attempt_id, question_id, answer_value})]: [None] is the error the
    caller logs.  The foreign keys, the primary key and the unique pair are
    checked; a new row takes the column defaults [is_correct = NULL] and
    [points_earned = 0]. *)
Definition upsert_answer (target : conflict_target) (st : store) (uuid : string)
    (attemptId questionId : string) (value : json) : option store :=
  if negb (bool_decide (Exists (fun a => Attempt.id a = attemptId) (exam_attempts st)))
  then None
  else if negb (bool_decide (Exists (fun q => Question.id q = questionId) (questions st)))
  then None
  else if bool_decide (Exists (same_answer attemptId questionId) (answers st))
  then match target with
       | OnPrimaryKey => None
       | OnAttemptQuestion =>
           Some (mkStore (exams st) (questions st) (exam_attempts st)
                         (overwrite_value attemptId questionId value <$> answers st))
       end
  else if bool_decide (Exists (fun r => Answer.id r = uuid) (answers st))
  then None
  else Some (mkStore (exams st) (questions st) (exam_attempts st)
                     (answers st ++
                        [Answer.mk uuid attemptId questionId value None (Some 0)])).

(** ** The component's state *)

Module Client.
Record t : Type := mk {
  exam : option exam_data;
  answers : gmap string json;     (* Record<string, any> *)
  timeLeft : option Z;
  attemptId : option string
}.

(** The [useState] initial values. *)
Definition initial : t := mk None ∅ None None.
End Client.

(** A number in a condition: [null] and [0] are falsy. *)
Definition truthy (n : option Z) : bool :=
  match n with
  | Some v => negb (bool_decide (v = 0))
  | None => false
  end.

(** [null] in a numeric comparison is [0]. *)
Definition to_number (n : option Z) : Z := default 0 n.

(** ** [loadExam] *)

Inductive load_outcome : Type :=
  | LoadSkipped                 (* no exam id or no user: plain return *)
  | LoadError                   (* the catch branch: the exam could not be loaded *)
  | LimitReached                (* all attempts used *)
  | Resumed (c : Client.t)      (* an incomplete attempt was taken up again *)
  | Started (c : Client.t).     (* a new attempt was inserted *)

Definition incomplete (a : Attempt.t) : bool :=
  match Attempt.completed_at a with
  | Some _ => false
  | None => true
  end.

(** [existingAnswers.reduce(...)] *)
Definition answers_map (rows : list Answer.t) : gmap string json :=
  foldl (fun acc answer => <[Answer.question_id answer := Answer.answer_value answer]> acc)
        ∅ rows.

(** The outcome carries the state the component is left with; toasts and
    navigation are read off the outcome.  [.single()] answers a missing or
    inactive exam with an error, which is thrown, so the [!examData] branch is
    never taken and both cases end in the catch branch. *)
Definition loadExam (c : Client.t) (examId user : option string)
    (now : Z) (uuid : string) (st : store) : load_outcome * store :=
  match examId, user with
  | Some examId, Some user =>
      let attempts := select_attempts st examId user in
      match select_active_exam st examId with
      | None => (LoadError, st)
      | Some examData =>
          let max_attempts := Exam.max_attempts (exam_row examData) in
          if bool_decide (to_number max_attempts <= Z.of_nat (length attempts))
             && negb (bool_decide (max_attempts = Some 999))
          then (LimitReached, st)
          else
            let time_limit := Exam.time_limit (exam_row examData) in
            let exam :=
              mkExamData (exam_row examData)
                         (sort_by_order_index (exam_questions examData)) in
            match List.find incomplete attempts with
            | Some incompleteAttempt =>
                let answersMap :=
                  answers_map (select_answers st (Attempt.id incompleteAttempt)) in
                let timeLeft :=
                  if truthy time_limit then
                    let elapsed := (now - Attempt.started_at incompleteAttempt) / 1000 in
                    let remaining := to_number time_limit * 60 - elapsed in
                    Some (Z.max 0 remaining)
                  else Client.timeLeft c in
                (Resumed (Client.mk (Some exam) answersMap timeLeft
                                    (Some (Attempt.id incompleteAttempt))), st)
            | None =>
                let attemptNumber := Z.of_nat (length attempts) + 1 in
                match insert_attempt st uuid now examId user attemptNumber with
                | None => (LoadError, st)
                | Some (newAttempt, st') =>
                    let timeLeft :=
                      if truthy time_limit then Some (to_number time_limit * 60)
                      else Client.timeLeft c in
                    (Started (Client.mk (Some exam) (Client.answers c) timeLeft
                                        (Some (Attempt.id newAttempt))), st')
                end
            end
      end
  | _, _ => (LoadSkipped, st)
  end.

(** ** [saveAnswer] and [handleAnswerChange] *)

Definition saveAnswer (target : conflict_target) (c : Client.t) (uuid : string)
    (questionId : string) (answerValue : json) (st : store) : store :=
  match Client.attemptId c with
  | None => st
  | Some attemptId =>
      match upsert_answer target st uuid attemptId questionId answerValue with
      | Some st' => st'
      | None => st                  (* the error is logged and dropped *)
      end
  end.

Definition handleAnswerChange (target : conflict_target) (c : Client.t)
    (uuid : string) (questionId : string) (value : json) (st : store)
    : Client.t * store :=
  (Client.mk (Client.exam c) (<[questionId := value]> (Client.answers c))
             (Client.timeLeft c) (Client.attemptId c),
   saveAnswer target c uuid questionId value st).

(** ** [handleSubmitExam] *)

(** [questionData && userAnswer === questionData.correct_answer] *)
Definition is_key (questionData : option json) (userAnswer : option json) : bool :=
  match questionData with
  | Some correct_answer => js_strict_eq userAnswer correct_answer
  | None => false
  end.

(** One turn of [for (const question of exam.questions)], on the running
    [totalScore], [totalPoints] and the store. *)
Definition grade_question (attemptId : string) (answers : gmap string json)
    (acc : Z * Z * store) (question : Question.t) : Z * Z * store :=
  let '(totalScore, totalPoints, st) := acc in
  let totalPoints := totalPoints + Question.points question in
  let userAnswer := answers !! Question.id question in
  match Question.question_type question with
  | multiple_choice =>
      let questionData := select_correct_answer st (Question.id question) in
      if is_key questionData userAnswer
      then (totalScore + Question.points question, totalPoints,
            update_answer st attemptId (Question.id question)
                          (Some true) (Some (Question.points question)))
      else (totalScore, totalPoints,
            update_answer st attemptId (Question.id question) (Some false) (Some 0))
  | true_false =>
      let questionData := select_correct_answer st (Question.id question) in
      if is_key questionData userAnswer
      then (totalScore + Question.points question, totalPoints,
            update_answer st attemptId (Question.id question)
                          (Some true) (Some (Question.points question)))
      else (totalScore, totalPoints,
            update_answer st attemptId (Question.id question) (Some false) (Some 0))
  | _ =>
      (* Open ended questions need manual grading *)
      (totalScore, totalPoints,
       update_answer st attemptId (Question.id question) None None)
  end.

Inductive submit_outcome : Type :=
  | SubmitSkipped               (* no attempt id or no exam: plain return *)
  | SubmitError                 (* the catch branch: the attempt was not completed *)
  | Submitted.                  (* the attempt row was completed *)

(** The errors of the [update]s inside the loop are not looked at by the
    code; only the one that completes the attempt is thrown. *)
Definition handleSubmitExam (c : Client.t) (now : Z) (st : store)
    : submit_outcome * store :=
  match Client.attemptId c, Client.exam c with
  | Some attemptId, Some exam =>
      let '(totalScore, totalPoints, st1) :=
        foldl (grade_question attemptId (Client.answers c)) (0, 0, st)
              (exam_questions exam) in
      match complete_attempt st1 attemptId now totalScore totalPoints with
      | Some st2 => (Submitted, st2)
      | None => (SubmitError, st1)
      end
  | _, _ => (SubmitSkipped, st)
  end.

(** ** The teacher's pages *)

(** The authoring pages insert exams with their questions, switch an exam's
    status and delete exams.  They are taken as one step that puts new
    contents in [exams] and [questions]; [ON DELETE CASCADE] then drops the
    attempts of an exam that is gone and the answers of an attempt or a
    question that is gone. *)
Definition author (newExams : list Exam.t) (newQuestions : list Question.t)
    (st : store) : store :=
  let attempts :=
    filter (fun a => Exists (fun e => Exam.id e = Attempt.exam_id a) newExams)
           (exam_attempts st) in
  mkStore newExams newQuestions attempts
    (filter (fun r => Exists (fun a => Attempt.id a = Answer.attempt_id r) attempts
                      ∧ Exists (fun q => Question.id q = Answer.question_id r)
                               newQuestions)
            (answers st)).

(** ** Histories of the store *)

Inductive action : Type :=
  | Load (c : Client.t) (examId user : option string) (now : Z) (uuid : string)
  | Save (target : conflict_target) (c : Client.t) (uuid questionId : string)
         (value : json)
  | Submit (c : Client.t) (now : Z)
  | Author (newExams : list Exam.t) (newQuestions : list Question.t).

Definition perform (st : store) (a : action) : store :=
  match a with
  | Load c examId user now uuid => (loadExam c examId user now uuid st).2
  | Save target c uuid questionId value => saveAnswer target c uuid questionId value st
  | Submit c now => (handleSubmitExam c now st).2
  | Author newExams newQuestions => author newExams newQuestions st
  end.

Definition run (st : store) (history : list action) : store :=
  foldl perform st history.

(** The submissions of one attempt. *)
Definition submits (attemptId : string) (a : action) : Prop :=
  match a with
  | Submit c _ => Client.attemptId c = Some attemptId
  | _ => False
  end.

(** ** The scoring policy in the specification's words *)

Record graded : Type := mkGraded {
  isCorrect : option bool;
  pointsEarned : option Z
}.

(** [grade(questionType, submittedValue, correctAnswer)], with the points of
    the question: an option index against an index, a boolean against a
    boolean, full points or zero; no submitted value earns zero; the manual
    types are left ungraded. *)
Definition grade (questionType : question_type) (submittedValue : option json)
    (correctAnswer : json) (points : Z) : graded :=
  match questionType with
  | multiple_choice =>
      match submittedValue, correctAnswer with
      | Some (JNum index), JNum correctIndex =>
          if bool_decide (index = correctIndex)
          then mkGraded (Some true) (Some points)
          else mkGraded (Some false) (Some 0)
      | _, _ => mkGraded (Some false) (Some 0)
      end
  | true_false =>
      match submittedValue, correctAnswer with
      | Some (JBool value), JBool correctValue =>
          if bool_decide (value = correctValue)
          then mkGraded (Some true) (Some points)
          else mkGraded (Some false) (Some 0)
      | _, _ => mkGraded (Some false) (Some 0)
      end
  | open_answer | matching => mkGraded None None
  end.

(** The shape the specification gives the stored key of each question type:
    an index, a boolean, anything for the manual types. *)
Definition key_shape (questionType : question_type) (correctAnswer : json) : Prop :=
  match questionType, correctAnswer with
  | multiple_choice, JNum _ => True
  | true_false, JBool _ => True
  | (open_answer | matching), _ => True
  | _, _ => False
  end.

Definition auto_gradable (questionType : question_type) : bool :=
  match questionType with
  | multiple_choice | true_false => true
  | open_answer | matching => false
  end.

(** [grade] where the key may be out of reach.  [readable] is the stored key
    when the grading can read the question row back, and [None] when it
    cannot, the row being gone or its exam no longer active; an auto-gradable
    answer then counts as incorrect with zero points, whatever was
    submitted. *)
Definition grade_readable (questionType : question_type)
    (submittedValue : option json) (readable : option json) (points : Z) : graded :=
  match readable with
  | Some correctAnswer => grade questionType submittedValue correctAnswer points
  | None =>
      if auto_gradable questionType
      then mkGraded (Some false) (Some 0)
      else mkGraded None None
  end.

(** ** What the grading loop computes *)

Definition sum_Z (l : list Z) : Z := foldr Z.add 0 l.

(** The values the loop's [update] carries for a question. *)
Definition outcome (st : store) (answers : gmap string json)
    (question : Question.t) : graded :=
  if auto_gradable (Question.question_type question) then
    if is_key (select_correct_answer st (Question.id question))
              (answers !! Question.id question)
    then mkGraded (Some true) (Some (Question.points question))
    else mkGraded (Some false) (Some 0)
  else mkGraded None None.

(** The answer rows once every question of the list has been through the
    loop. *)
Definition grade_all (attemptId : string) (answers : gmap string json)
    (st : store) (qs : list Question.t) : store :=
  foldl (fun st1 q =>
           update_answer st1 attemptId (Question.id q)
                         (isCorrect (outcome st answers q))
                         (pointsEarned (outcome st answers q)))
        st qs.

(** The non-null [pointsEarned] of the questions of a list. *)
Definition earned (st : store) (answers : gmap string json)
    (qs : list Question.t) : list Z :=
  omap (fun q => pointsEarned (outcome st answers q)) qs.

(** Two stores with the same exams and questions. *)
Definition same_catalog (st st' : store) : Prop :=
  exams st' = exams st ∧ questions st' = questions st.

(** Two rows of [exam_attempts] seen through the columns a submission
    computes. *)
Definition marks (a : Attempt.t) : string * option Z * option Z :=
  (Attempt.id a, Attempt.score a, Attempt.total_points a).

(** ** Views of the store used in the statements *)

(** One row through the loop's updates, in the order of the questions. *)
Definition regrade (attemptId : string) (answers : gmap string json) (st0 : store)
    (qs : list Question.t) (r : Answer.t) : Answer.t :=
  foldl (fun r1 q =>
           grade_row attemptId (Question.id q)
                     (isCorrect (outcome st0 answers q))
                     (pointsEarned (outcome st0 answers q)) r1)
        r qs.

(** Two rows that differ at most in the graded columns. *)
Definition same_submission (r r' : Answer.t) : Prop :=
  Answer.id r = Answer.id r' ∧ Answer.attempt_id r = Answer.attempt_id r'
  ∧ Answer.question_id r = Answer.question_id r'
  ∧ Answer.answer_value r = Answer.answer_value r'.

(** The attempt numbers of a pair, in the order the attempts were created. *)
Definition numbers (st : store) (examId studentId : string) : list Z :=
  Attempt.attempt_number <$> attempts_of st examId studentId.

(** 1, 2, ..., n: no gap, no repetition. *)
Definition sequential (l : list Z) : Prop :=
  l = Z.of_nat <$> seq 1 (length l).

Definition triple (a : Attempt.t) : string * string * Z :=
  (Attempt.exam_id a, Attempt.student_id a, Attempt.attempt_number a).

(** A call that started an attempt for the pair. *)
Definition starts (e s : string) (st : store) (a : action) : bool :=
  match a with
  | Load c (Some e') (Some s') now uuid =>
      bool_decide (e' = e ∧ s' = s)
      && match (loadExam c (Some e') (Some s') now uuid st).1 with
         | Started _ => true
         | _ => false
         end
  | _ => false
  end.

(** The number of calls of a history that started an attempt for the pair. *)
Fixpoint started (e s : string) (st : store) (history : list action) : nat :=
  match history with
  | [] => 0
  | a :: history' =>
      ((if starts e s st a then 1 else 0) + started e s (perform st a) history')%nat
  end.

(** The teacher does not delete the exam. *)
Definition keeps_exam (e : string) (a : action) : Prop :=
  match a with
  | Author newExams _ => Exists (fun x => Exam.id x = e) newExams
  | _ => True
  end.

(** * Access codes: the SQL function [generate_access_code] *)

Module AccessCode.

(** The lowercase hexadecimal digit of a value below 16. *)
Definition hex_digit (n : N) : ascii :=
  default "0"%char (String.get (N.to_nat n) "0123456789abcdef").

(** The [count] low hexadecimal digits of a number, most significant
    first. *)
Fixpoint hex_digits (count : nat) (digest : N) : string :=
  match count with
  | O => String.EmptyString
  | S count' =>
      String.String (hex_digit ((digest / 16 ^ N.of_nat count') mod 16)%N)
             (hex_digits count' digest)
  end.

(** The text [md5] returns: the 128 bits of the digest as 32 lowercase
    hexadecimal digits. *)
Definition md5_hex (digest : N) : string := hex_digits 32 digest.

(** [upper], on ASCII letters. *)
Definition upper_char (c : ascii) : ascii :=
  let n := N_of_ascii c in
  if ((97 <=? n) && (n <=? 122))%N then ascii_of_N (n - 32) else c.

Fixpoint upper (s : string) : string :=
  match s with
  | String.EmptyString => String.EmptyString
  | String.String c s' => String.String (upper_char c) (upper s')
  end.

(** A digit or an uppercase ASCII letter. *)
Definition upper_alphanumeric (c : ascii) : bool :=
  let n := N_of_ascii c in
  (((48 <=? n) && (n <=? 57)) || ((65 <=? n) && (n <=? 90)))%N.

(** [EXISTS(SELECT 1 FROM public.exams WHERE access_code = code)] *)
Definition exists_code (st : store) (code : string) : bool :=
  bool_decide (Exists (fun e => Exam.access_code e = code) (exams st)).

Section Generator.
(** The digest function, and the text of [random()] at each evaluation:
    the one is PostgreSQL's, the other is chance. *)
Variable md5 : string → N.
Variable random_text : nat → string.
Variable st : store.

(** [upper(substring(md5(random()::text) from 1 for 8))], at the i-th
    turn of the loop. *)
Definition candidate (i : nat) : string :=
  upper (String.substring 0 8 (md5_hex (md5 (random_text i)))).

(** [LOOP ... EXIT WHEN NOT exists_code; END LOOP; RETURN code], from
    turn [i] on, for at most [fuel] turns; [None] when the turns run
    out. *)
Fixpoint generate_access_code (fuel : nat) (i : nat) : option string :=
  match fuel with
  | O => None
  | S fuel' =>
      let code := candidate i in
      if exists_code st code then generate_access_code fuel' (S i)
      else Some code
  end.
End Generator.

End AccessCode.

(** * Scenarios *)

(** The fixtures of the specification's scenarios. *)
Module Scenario.
(** One multiple-choice question, 2 points, correct index 1; one open
    question, 3 points. *)
Definition q1 : Question.t :=
  Question.mk "q1" "e1" "pick one" multiple_choice 200 0 (Some ["a"; "b"]) (JNum 1).
Definition q2 : Question.t :=
  Question.mk "q2" "e1" "explain" open_answer 300 1 None (JStr "").
(** A true/false question whose key is [true]. *)
Definition q3 : Question.t :=
  Question.mk "q3" "e1" "is it so" true_false 100 2 None (JBool true).
Definition e1 : Exam.t :=
  Exam.mk "e1" "t1" "Exam" "ABCD1234" None (Some 1) active true.

Definition catalog : store := author [e1] [q2; q1] empty_store.

(** The student opens the exam: attempt 1 is created. *)
Definition opened : load_outcome * store :=
  loadExam Client.initial (Some "e1") (Some "s1") 1000 "a1" catalog.
Definition c0 : Client.t :=
  match opened.1 with
  | Started c | Resumed c => c
  | _ => Client.initial
  end.

(** The student picks index 1 and writes some text. *)
Definition picked : Client.t * store :=
  handleAnswerChange OnPrimaryKey c0 "r1" "q1" (JNum 1) opened.2.
Definition written : Client.t * store :=
  handleAnswerChange OnPrimaryKey picked.1 "r2" "q2" (JStr "some text") picked.2.

(** The submission. *)
Definition submitted : submit_outcome * store :=
  handleSubmitExam written.1 5000 written.2.

(** The student changes the pick to index 0 with the page still open. *)
Definition repicked : Client.t * store :=
  handleAnswerChange OnPrimaryKey written.1 "r3" "q1" (JNum 0) submitted.2.
End Scenario.

(** The history of a saved answer. *)
Module SavedAnswer.
(** The teacher publishes the scenario's exam, the student opens it and
    picks index 1. *)
Definition history : list action :=
  [ Author [Scenario.e1] [Scenario.q2; Scenario.q1];
    Load Client.initial (Some "e1") (Some "s1") 1000 "a1";
    Save OnPrimaryKey Scenario.c0 "r1" "q1" (JNum 1) ].
End SavedAnswer.

(** An access code that collides on the first draw. *)
Module Collision.
(** A stand-in for the digest: the first text is sent to a digest that
    begins abcd1234, every other one to 0123456789abcdef... *)
Definition md5 (s : string) : N :=
  if bool_decide (s = "0.1") then (0xabcd1234 * 16 ^ 24)%N
  else 0x0123456789abcdef0123456789abcdef%N.

Definition random_text (i : nat) : string :=
  match i with
  | O => "0.1"
  | _ => "0.7"
  end.
End Collision.

(** ** The countdown *)

(** What the effect on [timeLeft] does when it runs: arm a one-second timer
    that stores [timeLeft - 1], submit the exam, or nothing. *)
Inductive timer_effect : Type :=
  | Countdown (next : Z)
  | SubmitNow
  | NoTimer.

Definition timer (timeLeft : option Z) : timer_effect :=
  match timeLeft with
  | Some t =>
      if bool_decide (0 < t) then Countdown (t - 1)
      else if bool_decide (t = 0) then SubmitNow
      else NoTimer
  | None => NoTimer
  end.

(** [timeLeft] once [ticks] of the timers the effect armed have fired. *)
Fixpoint elapse (ticks : nat) (timeLeft : option Z) : option Z :=
  match ticks with
  | O => timeLeft
  | S ticks' =>
      match timer timeLeft with
      | Countdown next => elapse ticks' (Some next)
      | _ => timeLeft
      end
  end.

(** ** Further views of the store *)

(** The pair an answer row is unique for. *)
Definition answer_key (r : Answer.t) : string * string :=
  (Answer.attempt_id r, Answer.question_id r).

(** An attempt row is either open, with no marks, or completed, with both
    marks, each fitting its column. *)
Definition settled (a : Attempt.t) : Prop :=
  (Attempt.completed_at a = None ∧ Attempt.score a = None
   ∧ Attempt.total_points a = None)
  ∨ (∃ at_ score totalPoints,
       Attempt.completed_at a = Some at_ ∧ Attempt.score a = Some score
       ∧ Attempt.total_points a = Some totalPoints
       ∧ decimal_5_2 score = true ∧ decimal_5_2 totalPoints = true).

(** An action that does not draw the id [i] for a new attempt. *)
Definition draws_other (i : string) (a : action) : Prop :=
  match a with
  | Load _ _ _ _ uuid => uuid ≠ i
  | _ => True
  end.

(** Further fixtures. *)
Module Timed.
(** An exam of 30 minutes that may be taken any number of times. *)
Definition e2 : Exam.t :=
  Exam.mk "e2" "t1" "Timed" "0A1B2C3D" (Some 30) (Some 999) active false.
Definition q4 : Question.t :=
  Question.mk "q4" "e2" "pick one" multiple_choice 150 0 (Some ["x"; "y"]) (JNum 0).

Definition history : list action :=
  [ Author [e2] [q4];
    Load Client.initial (Some "e2") (Some "s1") 1000 "b1" ].

(** The student has the attempt open since [now = 1000]. *)
Definition opened : store := run empty_store history.
End Timed.

Module Heavy.
(** Two questions of 600 points each: each fits [DECIMAL(5,2)], their sum
    does not. *)
Definition q5 : Question.t :=
  Question.mk "q5" "e3" "first" multiple_choice 60000 0 (Some ["x"; "y"]) (JNum 0).
Definition q6 : Question.t :=
  Question.mk "q6" "e3" "second" true_false 60000 1 None (JBool true).
Definition e3 : Exam.t :=
  Exam.mk "e3" "t1" "Heavy" "FFFF0000" None (Some 1) active false.

Definition opened : load_outcome * store :=
  loadExam Client.initial (Some "e3") (Some "s1") 1000 "h1"
           (author [e3] [q5; q6] empty_store).
Definition c0 : Client.t :=
  match opened.1 with
  | Started c | Resumed c => c
  | _ => Client.initial
  end.
Definition answered : Client.t * store :=
  handleAnswerChange OnPrimaryKey c0 "r5" "q5" (JNum 0) opened.2.
End Heavy.

Module Deactivated.
(** The scenario's exam, switched to inactive after the student has answered. *)
Definition e1_inactive : Exam.t :=
  Exam.mk "e1" "t1" "Exam" "ABCD1234" None (Some 1) inactive true.
Definition st : store :=
  author [e1_inactive] [Scenario.q2; Scenario.q1] Scenario.written.2.
End Deactivated.

Module Resumable.
(** The timed exam: the student opens it, picks index 1 and comes back ten
    minutes later. *)
Definition opened : load_outcome * store :=
  loadExam Client.initial (Some "e2") (Some "s1") 1000 "b1"
           (author [Timed.e2] [Timed.q4] empty_store).
Definition c0 : Client.t :=
  match opened.1 with
  | Started c | Resumed c => c
  | _ => Client.initial
  end.
Definition history : list action :=
  [ Author [Timed.e2] [Timed.q4];
    Load Client.initial (Some "e2") (Some "s1") 1000 "b1";
    Save OnPrimaryKey c0 "r4" "q4" (JNum 1) ].
Definition resumed : load_outcome * store :=
  loadExam Client.initial (Some "e2") (Some "s1") 601000 "b2"
           (run empty_store history).
Definition c1 : Client.t :=
  match resumed.1 with
  | Started c | Resumed c => c
  | _ => Client.initial
  end.
End Resumable.

Module Retaken.
(** The timed exam taken twice.  The student opens it, picks index 0, which
    is the key, and submits; then the page loads the exam again with its
    state as it is, and a second attempt is started with the first pick
    still on the page and no answer row of its own. *)
Definition answered : Client.t * store :=
  handleAnswerChange OnPrimaryKey Resumable.c0 "r4" "q4" (JNum 0) Resumable.opened.2.
Definition submitted : submit_outcome * store :=
  handleSubmitExam answered.1 5000 answered.2.
Definition reopened : load_outcome * store :=
  loadExam answered.1 (Some "e2") (Some "s1") 9000 "b2" submitted.2.
Definition c2 : Client.t :=
  match reopened.1 with
  | Started c | Resumed c => c
  | _ => Client.initial
  end.
Definition history : list action :=
  [ Author [Timed.e2] [Timed.q4];
    Load Client.initial (Some "e2") (Some "s1") 1000 "b1";
    Save OnPrimaryKey Resumable.c0 "r4" "q4" (JNum 0);
    Submit answered.1 5000;
    Load answered.1 (Some "e2") (Some "s1") 9000 "b2" ].
End Retaken.

(** * The question editor *)

(** [CreateExam] keeps the questions of the exam being written in its state
    and renders one [QuestionForm] for each.  A form computes an update from
    the question it was rendered with and hands it to [onUpdate], which is
    [updateQuestion] at that question's id. *)

Module Draft.
Record t : Type := mk {
  id : string;                          (* Date.now().toString() *)
  question_text : string;
  question_type : question_type;
  options : option (list string);       (* options?: string[] *)
  correct_answer : json;                (* any *)
  points : Qcanon.Qc;                          (* a number read from the points input *)
  image_url : option string
}.
End Draft.

(** [Partial<Question>] with the keys the form's updates carry; an absent key
    is [None], and [Some None] for [options] is the key set to [undefined]. *)
Module Updates.
Record t : Type := mk {
  question_text : option string;
  question_type : option question_type;
  options : option (option (list string));
  correct_answer : option json;
  points : option Qcanon.Qc
}.
Definition none : t := mk None None None None None.
End Updates.

(** [{ ...q, ...updatedQuestion }] *)
Definition apply_updates (q : Draft.t) (u : Updates.t) : Draft.t :=
  Draft.mk (Draft.id q)
    (default (Draft.question_text q) (Updates.question_text u))
    (default (Draft.question_type q) (Updates.question_type u))
    (default (Draft.options q) (Updates.options u))
    (default (Draft.correct_answer q) (Updates.correct_answer u))
    (default (Draft.points q) (Updates.points u))
    (Draft.image_url q).

(** ** [CreateExam]: the list of questions *)

Definition addQuestion (now : string) (questions : list Draft.t) : list Draft.t :=
  questions ++ [Draft.mk now "" multiple_choice (Some [""; ""; ""; ""]) (JNum 0) 1%Qc None].

Definition updateQuestion (id : string) (updatedQuestion : Updates.t)
    (questions : list Draft.t) : list Draft.t :=
  (fun q => if bool_decide (Draft.id q = id) then apply_updates q updatedQuestion else q)
    <$> questions.

Definition deleteQuestion (id : string) (questions : list Draft.t) : list Draft.t :=
  filter (fun q => Draft.id q ≠ id) questions.

(** ** [QuestionForm]: the handlers *)

(** A handler gives the update it passes to [onUpdate], or [None] where it
    returns without calling it. *)
Definition handleTypeChange (newType : question_type) : Updates.t :=
  match newType with
  | multiple_choice =>
      Updates.mk None (Some newType) (Some (Some [""; ""; ""; ""])) (Some (JNum 0)) None
  | true_false =>
      Updates.mk None (Some newType) (Some None) (Some (JBool true)) None
  | _ =>
      Updates.mk None (Some newType) (Some None) (Some (JStr "")) None
  end.

(** [index] is the position of the input that fired, one of the array's; a
    write past the end, which extends a JS array, is no event of the page
    (see [rendered]). *)
Definition updateOption (question : Draft.t) (index : nat) (value : string)
    : option Updates.t :=
  match Draft.options question with
  | None => None
  | Some opts =>
      Some (Updates.mk None None (Some (Some (<[index := value]> opts))) None None)
  end.

Definition addOption (question : Draft.t) : option Updates.t :=
  match Draft.options question with
  | None => None
  | Some opts => Some (Updates.mk None None (Some (Some (opts ++ [""]))) None None)
  end.

(** [options.filter((_, i) => i !== index)] *)
Definition keep_others {A : Type} (index : nat) (l : list A) : list A :=
  snd <$> filter (fun p => p.1 ≠ index) (imap (fun i x => (i, x)) l).

Section Editor.

(** [v >= n] for a [v] that is a text, an array or an object compares the
    number its text reads as; that reading is left open. *)
Variable coerced_ge : json → nat → bool.

(** [correct_answer >= newOptions.length] *)
Definition ge_length (v : json) (n : nat) : bool :=
  match v with
  | JNum k => bool_decide (Z.of_nat n ≤ k)%Z
  | JBool b => bool_decide (n ≤ if b then 1 else 0)%nat
  | JNull => bool_decide (n ≤ 0)%nat
  | _ => coerced_ge v n
  end.

Definition removeOption (question : Draft.t) (index : nat) : option Updates.t :=
  match Draft.options question with
  | None => None
  | Some opts =>
      if bool_decide (length opts ≤ 2)%nat then None
      else
        let newOptions := keep_others index opts in
        Some (Updates.mk None None (Some (Some newOptions))
                (Some (if ge_length (Draft.correct_answer question) (length newOptions)
                       then JNum 0
                       else Draft.correct_answer question))
                None)
  end.

(** ** [QuestionForm]: the controls *)

(** What the user can do on a form.  An input event carries the value of the
    control; [PointsInput] carries what [parseFloat] makes of it, [None] for
    [NaN]; a radio item of the options carries the index it was rendered
    for, whose text [parseInt] reads back. *)
Inductive form_event : Type :=
  | TypeChange (newType : question_type)
  | PointsInput (parsed : option Qcanon.Qc)
  | TextInput (value : string)
  | OptionInput (index : nat) (value : string)
  | AddOption
  | RemoveOption (index : nat)
  | OptionMarked (index : nat)
  | TruthMarked (value : string)
  | ModelAnswerInput (value : string).

(** The controls the form renders for a question: the select offers three
    types; the options block is there for a multiple_choice question with
    options, with an input and a radio item for each option, the add button
    enabled below six options and a remove button for each option above two;
    the true/false radio group and the model answer are there for their
    types. *)
Definition rendered (question : Draft.t) (ev : form_event) : bool :=
  match ev with
  | TypeChange newType => negb (bool_decide (newType = matching))
  | PointsInput _ | TextInput _ => true
  | OptionInput index _ | OptionMarked index =>
      match Draft.question_type question, Draft.options question with
      | multiple_choice, Some opts => bool_decide (index < length opts)%nat
      | _, _ => false
      end
  | AddOption =>
      match Draft.question_type question, Draft.options question with
      | multiple_choice, Some opts => negb (bool_decide (6 ≤ length opts)%nat)
      | _, _ => false
      end
  | RemoveOption index =>
      match Draft.question_type question, Draft.options question with
      | multiple_choice, Some opts =>
          bool_decide (2 < length opts)%nat && bool_decide (index < length opts)%nat
      | _, _ => false
      end
  | TruthMarked value =>
      bool_decide (Draft.question_type question = true_false)
      && bool_decide (value = "true" ∨ value = "false")
  | ModelAnswerInput _ => bool_decide (Draft.question_type question = open_answer)
  end.

(** The handler of each control. *)
Definition handler (question : Draft.t) (ev : form_event) : option Updates.t :=
  match ev with
  | TypeChange newType => Some (handleTypeChange newType)
  | PointsInput parsed =>
      (* parseFloat(e.target.value) || 1 *)
      let value :=
        match parsed with
        | Some q => if bool_decide (q = Qcanon.Q2Qc (QArith_base.Qmake 0 1)) then 1%Qc else q
        | None => 1%Qc
        end in
      Some (Updates.mk None None None None (Some value))
  | TextInput value => Some (Updates.mk (Some value) None None None None)
  | OptionInput index value => updateOption question index value
  | AddOption => addOption question
  | RemoveOption index => removeOption question index
  | OptionMarked index =>
      Some (Updates.mk None None None (Some (JNum (Z.of_nat index))) None)
  | TruthMarked value =>
      Some (Updates.mk None None None (Some (JBool (bool_decide (value = "true")))) None)
  | ModelAnswerInput value =>
      Some (Updates.mk None None None (Some (JStr value)) None)
  end.

(** ** The page *)

Inductive event : Type :=
  | AddQuestion (now : string)
  | DeleteQuestion (pos : nat)
  | Form (pos : nat) (ev : form_event).

(** One event on the page holding [questions]; [None] where the page has no
    such control.  [pos] is the place of the question whose form or delete
    button is used. *)
Definition edit (ev : event) (questions : list Draft.t) : option (list Draft.t) :=
  match ev with
  | AddQuestion now => Some (addQuestion now questions)
  | DeleteQuestion pos =>
      question ← questions !! pos;
      Some (deleteQuestion (Draft.id question) questions)
  | Form pos ev =>
      question ← questions !! pos;
      if rendered question ev
      then match handler question ev with
           | Some updates => Some (updateQuestion (Draft.id question) updates questions)
           | None => Some questions
           end
      else None
  end.

Fixpoint edits (questions : list Draft.t) (history : list event)
    : option (list Draft.t) :=
  match history with
  | [] => Some questions
  | ev :: rest => questions' ← edit ev questions; edits questions' rest
  end.

End Editor.

(** The ids [addQuestion] gave out over a history. *)
Definition stamps (history : list event) : list string :=
  omap (fun ev => match ev with AddQuestion now => Some now | _ => None end) history.

(** ** [handleSubmit]: the rows sent for the questions *)

Module Payload.
Record t : Type := mk {
  exam_id : string;
  question_text : string;
  question_type : question_type;
  options : option (list string);
  correct_answer : json;
  points : Qcanon.Qc;
  order_index : nat;
  image_url : option string
}.
End Payload.

(** [questions.map((q, index) => ({ ... }))]; [q.image_url || null] drops an
    empty text. *)
Definition questionsToInsert (examId : string) (questions : list Draft.t)
    : list Payload.t :=
  imap (fun index q =>
          Payload.mk examId (Draft.question_text q) (Draft.question_type q)
            (if bool_decide (Draft.question_type q = multiple_choice)
             then Draft.options q else None)
            (Draft.correct_answer q) (Draft.points q) index
            (match Draft.image_url q with
             | Some url => if bool_decide (url = EmptyString) then None else Some url
             | None => None
             end))
       questions.

(** A question as the editor leaves it: a multiple_choice question has two to
    six options and the index of one of them for its key, a true_false
    question a boolean, an open_answer question a text; no question is of
    type matching, and only a multiple_choice question has options. *)
Definition sound (q : Draft.t) : Prop :=
  match Draft.question_type q with
  | multiple_choice =>
      ∃ opts k, Draft.options q = Some opts ∧ (2 ≤ length opts ≤ 6)%nat
                ∧ Draft.correct_answer q = JNum (Z.of_nat k) ∧ (k < length opts)%nat
  | true_false => Draft.options q = None ∧ ∃ b, Draft.correct_answer q = JBool b
  | open_answer => Draft.options q = None ∧ ∃ s, Draft.correct_answer q = JStr s
  | matching => False
  end.

(** A session of the editor used in the examples: two questions are added,
    the second is made true/false and marked false, the first gets its
    texts, loses its first option and then has its last option marked. *)
Module Session.
Definition history : list event :=
  [ AddQuestion "1700000000000";
    AddQuestion "1700000004000";
    Form 1 (TypeChange true_false);
    Form 1 (TruthMarked "false");
    Form 0 (TextInput "2 + 2 =");
    Form 0 (OptionInput 0 "3");
    Form 0 (OptionInput 1 "4");
    Form 0 (OptionInput 2 "5");
    Form 0 (OptionInput 3 "22");
    Form 0 (OptionMarked 1);
    Form 0 (RemoveOption 0);
    Form 0 (OptionMarked 2) ].
Definition unread (v : json) (n : nat) : bool := false.
Definition questions : option (list Draft.t) := edits unread [] history.
End Session.

(** * Properties *)

(** ** Store bookkeeping *)

Lemma outcome_questions st st' answers q :
  same_catalog st st' → outcome st' answers q = outcome st answers q.
Proof.
  intros [He Hq].
  unfold outcome, select_correct_answer. by rewrite He, Hq.
Qed.

Lemma grade_question_outcome attemptId answers totalScore totalPoints st q :
  grade_question attemptId answers (totalScore, totalPoints, st) q =
    (totalScore + default 0 (pointsEarned (outcome st answers q)),
     totalPoints + Question.points q,
     update_answer st attemptId (Question.id q)
                   (isCorrect (outcome st answers q))
                   (pointsEarned (outcome st answers q))).
Proof.
  unfold grade_question, outcome.
  destruct (Question.question_type q); simpl;
    try destruct (is_key _ _); simpl; repeat f_equal; lia.
Qed.

Lemma grade_all_frame attemptId answers st0 qs st :
  let st' := foldl (fun st1 q =>
                      update_answer st1 attemptId (Question.id q)
                                    (isCorrect (outcome st0 answers q))
                                    (pointsEarned (outcome st0 answers q))) st qs in
  exams st' = exams st ∧ questions st' = questions st
  ∧ exam_attempts st' = exam_attempts st.
Proof.
  revert st. induction qs as [|q qs IH]; intros st; simpl; [done|].
  destruct (IH (update_answer st attemptId (Question.id q)
                  (isCorrect (outcome st0 answers q))
                  (pointsEarned (outcome st0 answers q)))) as (H1 & H2 & H3).
  by rewrite H1, H2, H3.
Qed.

Lemma sum_Z_cons x l : sum_Z (x :: l) = x + sum_Z l.
Proof. done. Qed.

Lemma earned_cons st answers q qs :
  sum_Z (earned st answers (q :: qs)) =
  default 0 (pointsEarned (outcome st answers q)) + sum_Z (earned st answers qs).
Proof.
  unfold earned. cbn [omap list_omap].
  destruct (pointsEarned (outcome st answers q)) as [p|]; cbn [default from_option id].
  - done.
  - lia.
Qed.

(** The loop as a whole: the two running sums and the graded rows. *)
Lemma grading_loop attemptId answers qs : ∀ totalScore totalPoints st0 st,
  same_catalog st0 st →
  foldl (grade_question attemptId answers) (totalScore, totalPoints, st) qs =
    (totalScore + sum_Z (earned st0 answers qs),
     totalPoints + sum_Z (Question.points <$> qs),
     foldl (fun st1 q =>
              update_answer st1 attemptId (Question.id q)
                            (isCorrect (outcome st0 answers q))
                            (pointsEarned (outcome st0 answers q))) st qs).
Proof.
  induction qs as [|q qs IH]; intros totalScore totalPoints st0 st Hq.
  - simpl. unfold sum_Z; simpl. by rewrite !Z.add_0_r.
  - cbn [foldl]. rewrite grade_question_outcome.
    rewrite (outcome_questions st0 st answers q Hq).
    rewrite (IH _ _ st0) by done.
    rewrite earned_cons, fmap_cons, sum_Z_cons.
    by rewrite !Z.add_assoc.
Qed.

Lemma handleSubmitExam_unfold c now st attemptId exam :
  Client.attemptId c = Some attemptId →
  Client.exam c = Some exam →
  handleSubmitExam c now st =
    match complete_attempt (grade_all attemptId (Client.answers c) st (exam_questions exam))
                           attemptId now
                           (sum_Z (earned st (Client.answers c) (exam_questions exam)))
                           (sum_Z (Question.points <$> exam_questions exam)) with
    | Some st2 => (Submitted, st2)
    | None => (SubmitError,
               grade_all attemptId (Client.answers c) st (exam_questions exam))
    end.
Proof.
  intros Ha He. unfold handleSubmitExam. rewrite Ha, He.
  rewrite (grading_loop _ _ _ 0 0 st st) by done. done.
Qed.

Lemma complete_attempt_Some st attemptId now score totalPoints st' :
  complete_attempt st attemptId now score totalPoints = Some st' →
  exams st' = exams st ∧ questions st' = questions st
  ∧ answers st' = answers st
  ∧ exam_attempts st' =
      complete_row attemptId now score totalPoints <$> exam_attempts st.
Proof.
  unfold complete_attempt. destruct (_ && _); [|done].
  by intros [= <-].
Qed.

Lemma complete_row_marks attemptId now score totalPoints a :
  Attempt.id (complete_row attemptId now score totalPoints a) = Attempt.id a
  ∧ (Attempt.id a = attemptId →
       Attempt.completed_at (complete_row attemptId now score totalPoints a) = Some now
       ∧ Attempt.score (complete_row attemptId now score totalPoints a) = Some score
       ∧ Attempt.total_points (complete_row attemptId now score totalPoints a)
         = Some totalPoints).
Proof. unfold complete_row. by case_bool_decide. Qed.

(** A successful submission, read off the store: the graded rows, and the two
    sums in every attempt row of that id. *)
Lemma handleSubmitExam_Submitted c now st st' attemptId exam :
  Client.attemptId c = Some attemptId →
  Client.exam c = Some exam →
  handleSubmitExam c now st = (Submitted, st') →
  answers st' =
    answers (grade_all attemptId (Client.answers c) st (exam_questions exam))
  ∧ same_catalog st st'
  ∧ exam_attempts st' =
      complete_row attemptId now
        (sum_Z (earned st (Client.answers c) (exam_questions exam)))
        (sum_Z (Question.points <$> exam_questions exam)) <$> exam_attempts st.
Proof.
  intros Ha He. rewrite (handleSubmitExam_unfold c now st attemptId exam Ha He).
  destruct (complete_attempt _ _ _ _ _) as [st2|] eqn:Hc; [|done].
  intros [= <-]. apply complete_attempt_Some in Hc as (He2 & Hq & Hans & Hatt).
  destruct (grade_all_frame attemptId (Client.answers c) st (exam_questions exam) st)
    as (He' & Hq' & Hatt').
  unfold grade_all in *.
  split; [done|]. split; [split; congruence|]. by rewrite Hatt, Hatt'.
Qed.

Example scenario_opened :
  Scenario.opened.1 = Started Scenario.c0
  ∧ exam_attempts Scenario.opened.2 =
      [Attempt.mk "a1" "e1" "s1" 1000 None None None 1].
Proof. vm_compute. done. Qed.

Example scenario_submitted :
  Scenario.submitted.1 = Submitted
  ∧ exam_attempts Scenario.submitted.2 =
      [Attempt.mk "a1" "e1" "s1" 1000 (Some 5000) (Some 200) (Some 500) 1]
  ∧ answers Scenario.submitted.2 =
      [Answer.mk "r1" "a1" "q1" (JNum 1) (Some true) (Some 200);
       Answer.mk "r2" "a1" "q2" (JStr "some text") None None].
Proof. vm_compute. done. Qed.

(** A true/false question whose key is [true], answered [false]. *)
Example scenario_true_false :
  grade true_false (Some (JBool false)) (JBool true) 100
    = mkGraded (Some false) (Some 0)
  ∧ outcome (author [Scenario.e1] [Scenario.q3] empty_store)
            {["q3" := JBool false]} Scenario.q3
    = mkGraded (Some false) (Some 0).
Proof. by vm_compute. Qed.

(** ** C1: the grading of one question *)

Lemma outcome_grade st answers q key :
  (auto_gradable (Question.question_type q) = true →
   select_correct_answer st (Question.id q) = Some key) →
  key_shape (Question.question_type q) key →
  outcome st answers q =
    grade (Question.question_type q) (answers !! Question.id q) key (Question.points q).
Proof.
  unfold outcome, grade, key_shape.
  destruct (Question.question_type q); simpl; intros Hkey Hk; try done;
    rewrite Hkey by done; simpl;
    destruct key; try done;
    destruct (answers !! Question.id q) as [[]|]; try done; simpl;
    by case_bool_decide.
Qed.

Lemma update_answer_marks st attemptId questionId ic pe r :
  r ∈ answers st → same_answer attemptId questionId r →
  ∃ r', r' ∈ answers (update_answer st attemptId questionId ic pe)
        ∧ Answer.id r' = Answer.id r
        ∧ Answer.answer_value r' = Answer.answer_value r
        ∧ Answer.is_correct r' = ic ∧ Answer.points_earned r' = pe.
Proof.
  intros Hr Hs. exists (grade_row attemptId questionId ic pe r). split.
  - simpl. apply list_elem_of_fmap. by exists r.
  - unfold grade_row. by rewrite bool_decide_true.
Qed.

Lemma filter_none {A : Type} (P : A → Prop) `{!∀ x, Decision (P x)} (l : list A) :
  ¬ Exists P l → filter P l = [].
Proof.
  intros Hno. induction l as [|x l IH]; [done|].
  rewrite filter_cons. destruct (decide (P x)) as [Hx|Hx].
  - destruct Hno. by left.
  - apply IH. intros Hex. apply Hno. by right.
Qed.

Lemma inactive_exam_hides_questions st qid :
  (∀ q', q' ∈ questions st → Question.id q' = qid →
     ¬ Exists (fun e => Exam.id e = Question.exam_id q' ∧ Exam.status e = active)
              (exams st)) →
  visible_question (exams st) (questions st) qid = None.
Proof.
  intros H. unfold visible_question. rewrite filter_none; [done|].
  intros (q' & Hin & Hid & Hvis)%Exists_exists. by apply (H q' Hin Hid).
Qed.

Lemma outcome_grade_readable st answers q :
  (∀ key, select_correct_answer st (Question.id q) = Some key →
          key_shape (Question.question_type q) key) →
  outcome st answers q =
    grade_readable (Question.question_type q) (answers !! Question.id q)
                   (select_correct_answer st (Question.id q)) (Question.points q).
Proof.
  intros Hshape. unfold grade_readable.
  destruct (select_correct_answer st (Question.id q)) as [key|] eqn:Hkey.
  - apply outcome_grade; [by rewrite Hkey|by apply Hshape].
  - unfold outcome. by rewrite Hkey.
Qed.

(** Against C1 as stated.  The scenario's exam is switched to inactive after
    the student has picked index 1.  The question row is still there with its
    key 1, but the student's policy on [questions] no longer lets the grading
    read it back: the answer, equal to the stored key, is marked incorrect
    with zero points, where the reference function gives full points. *)
Lemma answer_equal_to_key_is_marked_incorrect :
  questions Deactivated.st = [Scenario.q2; Scenario.q1]
  ∧ Question.correct_answer Scenario.q1 = JNum 1
  ∧ Client.answers Scenario.written.1 !! Question.id Scenario.q1 = Some (JNum 1)
  ∧ grade multiple_choice (Some (JNum 1)) (JNum 1) 200 = mkGraded (Some true) (Some 200)
  ∧ select_correct_answer Deactivated.st (Question.id Scenario.q1) = None
  ∧ grade_question "a1" (Client.answers Scenario.written.1)
                   (0, 0, Deactivated.st) Scenario.q1
    = (0, 200, update_answer Deactivated.st "a1" "q1" (Some false) (Some 0))
  ∧ answers (handleSubmitExam Scenario.written.1 5000 Deactivated.st).2
    = [ Answer.mk "r1" "a1" "q1" (JNum 1) (Some false) (Some 0);
        Answer.mk "r2" "a1" "q2" (JStr "some text") None None ].
Proof. split_and!; by vm_compute. Qed.

(** C1, as the code has it.  One turn of the grading loop follows the
    question type as the piecewise [grade] applied to the key the turn reads
    back, when it can read one: for a multiple-choice question whose stored
    key is an index, and for a true/false question whose stored key is a
    boolean, the turn adds the question's full points to the score and marks
    the answer rows correct exactly when the submitted value equals the key
    read back, and otherwise adds nothing and marks them incorrect with zero
    points; for an open or matching question it adds nothing and writes
    [null] for both columns.  When the turn can read no key back, as when no
    active exam has the question, an auto-gradable answer is marked incorrect
    with zero points whatever was submitted. *)
Theorem grading_follows_question_type
    attemptId (held : gmap string json) totalScore totalPoints st q :
  (∀ key, select_correct_answer st (Question.id q) = Some key →
          key_shape (Question.question_type q) key) →
  let g := grade_readable (Question.question_type q) (held !! Question.id q)
                          (select_correct_answer st (Question.id q))
                          (Question.points q) in
  grade_question attemptId held (totalScore, totalPoints, st) q =
    (totalScore + default 0 (pointsEarned g),
     totalPoints + Question.points q,
     update_answer st attemptId (Question.id q) (isCorrect g) (pointsEarned g))
  ∧ (∀ r, r ∈ answers st → same_answer attemptId (Question.id q) r →
       ∃ r', r' ∈ answers
                    (grade_question attemptId held (totalScore, totalPoints, st) q).2
             ∧ Answer.id r' = Answer.id r
             ∧ Answer.is_correct r' = isCorrect g
             ∧ Answer.points_earned r' = pointsEarned g)
  ∧ (isCorrect g = Some true ↔
       auto_gradable (Question.question_type q) = true
       ∧ ∃ key, select_correct_answer st (Question.id q) = Some key
                ∧ held !! Question.id q = Some key)
  ∧ (auto_gradable (Question.question_type q) = true →
       (isCorrect g = Some true ∧ pointsEarned g = Some (Question.points q))
       ∨ (isCorrect g = Some false ∧ pointsEarned g = Some 0))
  ∧ (auto_gradable (Question.question_type q) = false →
       isCorrect g = None ∧ pointsEarned g = None)
  ∧ (auto_gradable (Question.question_type q) = true →
     select_correct_answer st (Question.id q) = None →
       isCorrect g = Some false ∧ pointsEarned g = Some 0)
  ∧ ((∀ q', q' ∈ questions st → Question.id q' = Question.id q →
        ¬ Exists (fun e => Exam.id e = Question.exam_id q' ∧ Exam.status e = active)
                 (exams st)) →
       select_correct_answer st (Question.id q) = None).
Proof.
  intros Hshape g.
  assert (Hg : outcome st held q = g) by by apply outcome_grade_readable.
  assert (Hq := grade_question_outcome attemptId held totalScore totalPoints st q).
  rewrite Hg in Hq. split; [done|]. split.
  { intros r Hr Hsame. rewrite Hq. simpl.
    destruct (update_answer_marks st attemptId (Question.id q)
                (isCorrect g) (pointsEarned g) r Hr Hsame) as (r' & ? & ? & ? & ? & ?).
    by exists r'. }
  assert (Hhidden :
            (∀ q', q' ∈ questions st → Question.id q' = Question.id q →
               ¬ Exists (fun e => Exam.id e = Question.exam_id q'
                                  ∧ Exam.status e = active) (exams st)) →
            select_correct_answer st (Question.id q) = None).
  { intros H. unfold select_correct_answer.
    by rewrite inactive_exam_hides_questions. }
  clear Hq Hg. subst g. unfold grade_readable, grade.
  destruct (select_correct_answer st (Question.id q)) as [key|] eqn:Hkey.
  - specialize (Hshape key eq_refl). unfold key_shape in Hshape.
    destruct (Question.question_type q); simpl;
      destruct key; try done;
      destruct (held !! Question.id q) as [[]|]; try done; simpl;
      try case_bool_decide; subst;
      (split_and!; [| | |done|done]);
      try (split; [intros ?|intros (? & k & ? & ?)]); try (intros ?);
      eauto; try (simplify_eq; eauto; done); try done.
  - clear Hshape.
    destruct (Question.question_type q); simpl;
      (split_and!; [| | |done|done]);
      try (split; [intros ?|intros (? & k & ? & ?)]); try (intros ?);
      eauto; try done.
Qed.

(** C1 at the scenario's multiple-choice question, answered with the correct
    index 1. *)
Lemma grading_follows_question_type_witness :
  select_correct_answer Scenario.written.2 (Question.id Scenario.q1) = Some (JNum 1)
  ∧ grade_question "a1" (Client.answers Scenario.written.1)
                   (0, 0, Scenario.written.2) Scenario.q1
    = (200, 200,
       update_answer Scenario.written.2 "a1" "q1" (Some true) (Some 200)).
Proof.
  assert (Hkey : select_correct_answer Scenario.written.2 (Question.id Scenario.q1)
                 = Some (JNum 1)) by by vm_compute.
  split; [exact Hkey|].
  refine (proj1 (grading_follows_question_type
                   "a1" (Client.answers Scenario.written.1) 0 0
                   Scenario.written.2 Scenario.q1 _)).
  intros key Hk. rewrite Hkey in Hk. injection Hk as <-. exact I.
Defined.

(** ** C2 and C10: the two sums of a submission *)

Lemma completed_rows attemptId now score totalPoints (rows : list Attempt.t) a :
  a ∈ complete_row attemptId now score totalPoints <$> rows →
  Attempt.id a = attemptId →
  Attempt.completed_at a = Some now
  ∧ Attempt.score a = Some score ∧ Attempt.total_points a = Some totalPoints.
Proof.
  intros (a0 & -> & _)%list_elem_of_fmap Hid.
  destruct (complete_row_marks attemptId now score totalPoints a0) as [Hid0 H].
  apply H. by rewrite <- Hid0.
Qed.

Lemma completed_rows_exist attemptId now score totalPoints (rows : list Attempt.t) a :
  a ∈ rows → Attempt.id a = attemptId →
  ∃ a', a' ∈ complete_row attemptId now score totalPoints <$> rows
        ∧ Attempt.id a' = attemptId.
Proof.
  intros Ha Hid. exists (complete_row attemptId now score totalPoints a). split.
  - apply list_elem_of_fmap. by exists a.
  - by rewrite (proj1 (complete_row_marks attemptId now score totalPoints a)).
Qed.

(** C2.  After a submission that succeeds, every attempt row of the submitted
    id carries as [total_points] the sum of the points of all the questions of
    the exam, whatever their type, and as [score] the sum of the non-null
    [pointsEarned] the loop computed, to which the manual types contribute
    nothing; and the attempt row is still there. *)
Theorem submission_totals c now st st' attemptId exam :
  Client.attemptId c = Some attemptId →
  Client.exam c = Some exam →
  handleSubmitExam c now st = (Submitted, st') →
  (∀ a, a ∈ exam_attempts st' → Attempt.id a = attemptId →
     Attempt.total_points a = Some (sum_Z (Question.points <$> exam_questions exam))
     ∧ Attempt.score a =
         Some (sum_Z (omap (fun q => pointsEarned (outcome st (Client.answers c) q))
                           (exam_questions exam))))
  ∧ (∀ a, a ∈ exam_attempts st → Attempt.id a = attemptId →
       ∃ a', a' ∈ exam_attempts st' ∧ Attempt.id a' = attemptId)
  ∧ (∀ q, q ∈ exam_questions exam →
       auto_gradable (Question.question_type q) = false →
       pointsEarned (outcome st (Client.answers c) q) = None).
Proof.
  intros Ha He Hs.
  destruct (handleSubmitExam_Submitted c now st st' attemptId exam Ha He Hs)
    as (_ & _ & Hatt).
  split; [|split].
  - intros a Hin Hid. rewrite Hatt in Hin.
    destruct (completed_rows _ _ _ _ _ _ Hin Hid) as (_ & Hsc & Htot). done.
  - intros a Hin Hid. rewrite Hatt. by eapply completed_rows_exist.
  - intros q _ Hq. unfold outcome. by rewrite Hq.
Qed.

(** C2 at the scenario's submission: total 5, score 2. *)
Lemma submission_totals_witness :
  handleSubmitExam Scenario.written.1 5000 Scenario.written.2
    = (Submitted, Scenario.submitted.2)
  ∧ ∀ a, a ∈ exam_attempts Scenario.submitted.2 → Attempt.id a = "a1" →
      Attempt.total_points a = Some 500 ∧ Attempt.score a = Some 200.
Proof.
  split; [by vm_compute|].
  refine (proj1 (submission_totals Scenario.written.1 5000 Scenario.written.2
                   Scenario.submitted.2 "a1"
                   (mkExamData Scenario.e1 [Scenario.q1; Scenario.q2]) _ _ _)).
  - by vm_compute.
  - by vm_compute.
  - by vm_compute.
Defined.

Lemma outcome_le_points st answers q :
  0 ≤ Question.points q →
  default 0 (pointsEarned (outcome st answers q)) ≤ Question.points q.
Proof.
  intros Hq. unfold outcome.
  destruct (auto_gradable _); [destruct (is_key _ _)|]; simpl; lia.
Qed.

Lemma earned_le_points st answers qs :
  Forall (fun q => 0 ≤ Question.points q) qs →
  sum_Z (earned st answers qs) ≤ sum_Z (Question.points <$> qs).
Proof.
  induction 1 as [|q qs Hq _ IH].
  - done.
  - rewrite earned_cons, fmap_cons, sum_Z_cons.
    pose proof (outcome_le_points st answers q Hq). lia.
Qed.

(** C10.  When no question of the exam has negative points, a submission that
    succeeds leaves [score ≤ total_points] in every attempt row of the
    submitted id: a question adds at most its points to the score and exactly
    its points to the total. *)
Theorem score_le_total_points c now st st' attemptId exam :
  Client.attemptId c = Some attemptId →
  Client.exam c = Some exam →
  Forall (fun q => 0 ≤ Question.points q) (exam_questions exam) →
  handleSubmitExam c now st = (Submitted, st') →
  ∀ a, a ∈ exam_attempts st' → Attempt.id a = attemptId →
    ∃ score totalPoints,
      Attempt.score a = Some score ∧ Attempt.total_points a = Some totalPoints
      ∧ score ≤ totalPoints.
Proof.
  intros Ha He Hpos Hs a Hin Hid.
  destruct (handleSubmitExam_Submitted c now st st' attemptId exam Ha He Hs)
    as (_ & _ & Hatt).
  rewrite Hatt in Hin.
  destruct (completed_rows _ _ _ _ _ _ Hin Hid) as (_ & Hsc & Htot).
  eexists _, _. split; [done|]. split; [done|]. by apply earned_le_points.
Qed.

(** C10 at the scenario's submission. *)
Lemma score_le_total_points_witness :
  Forall (fun q => 0 ≤ Question.points q) [Scenario.q1; Scenario.q2]
  ∧ ∀ a, a ∈ exam_attempts Scenario.submitted.2 → Attempt.id a = "a1" →
      ∃ score totalPoints,
        Attempt.score a = Some score ∧ Attempt.total_points a = Some totalPoints
        ∧ score ≤ totalPoints.
Proof.
  assert (Hpos : Forall (fun q => 0 ≤ Question.points q) [Scenario.q1; Scenario.q2]).
  { repeat constructor; simpl; lia. }
  split; [exact Hpos|].
  refine (score_le_total_points Scenario.written.1 5000 Scenario.written.2
            Scenario.submitted.2 "a1"
            (mkExamData Scenario.e1 [Scenario.q1; Scenario.q2]) _ _ Hpos _).
  - by vm_compute.
  - by vm_compute.
  - by vm_compute.
Defined.

(** ** The answer rows through the grading loop *)

Lemma grade_row_same_submission attemptId questionId ic pe r :
  same_submission (grade_row attemptId questionId ic pe r) r.
Proof. unfold grade_row, same_submission. by case_bool_decide. Qed.

Lemma grade_row_other attemptId questionId ic pe r :
  ¬ same_answer attemptId questionId r →
  grade_row attemptId questionId ic pe r = r.
Proof. intros H. unfold grade_row. by rewrite bool_decide_false. Qed.

Lemma grade_row_overwrites attemptId questionId ic pe r r' :
  same_submission r r' → same_answer attemptId questionId r →
  grade_row attemptId questionId ic pe r = grade_row attemptId questionId ic pe r'.
Proof.
  intros (Hi & Ha & Hq & Hv) Hs. unfold grade_row.
  assert (same_answer attemptId questionId r').
  { unfold same_answer in *. by rewrite <- Ha, <- Hq. }
  rewrite !bool_decide_true by done. by rewrite Hi, Ha, Hq, Hv.
Qed.

Lemma regrade_same_submission attemptId answers st0 qs r :
  same_submission (regrade attemptId answers st0 qs r) r.
Proof.
  revert r. induction qs as [|q qs IH]; intros r; simpl.
  - done.
  - destruct (IH (grade_row attemptId (Question.id q)
                    (isCorrect (outcome st0 answers q))
                    (pointsEarned (outcome st0 answers q)) r)) as (? & ? & ? & ?).
    destruct (grade_row_same_submission attemptId (Question.id q)
                (isCorrect (outcome st0 answers q))
                (pointsEarned (outcome st0 answers q)) r) as (? & ? & ? & ?).
    unfold same_submission, regrade in *. split_and!; congruence.
Qed.

Lemma regrade_untouched attemptId answers st0 qs r :
  Forall (fun q => ¬ same_answer attemptId (Question.id q) r) qs →
  regrade attemptId answers st0 qs r = r.
Proof.
  induction 1 as [|q qs Hq _ IH]; simpl; [done|].
  by rewrite grade_row_other.
Qed.

Lemma regrade_other_attempt attemptId answers st0 qs r :
  Answer.attempt_id r ≠ attemptId → regrade attemptId answers st0 qs r = r.
Proof.
  intros Hne. apply regrade_untouched, Forall_forall.
  intros q _ [Ha _]. done.
Qed.

Lemma regrade_questions attemptId answers st st' qs r :
  same_catalog st st' →
  regrade attemptId answers st' qs r = regrade attemptId answers st qs r.
Proof.
  intros Hq. revert r. induction qs as [|q qs IH]; intros r; simpl; [done|].
  by rewrite IH, (outcome_questions st st' answers q Hq).
Qed.

Lemma earned_questions st st' answers qs :
  same_catalog st st' → earned st' answers qs = earned st answers qs.
Proof.
  intros Hq. unfold earned. induction qs as [|q qs IH]; [done|].
  cbn [omap list_omap]. by rewrite IH, (outcome_questions st st' answers q Hq).
Qed.

(** Once some question of the list addresses the row, what the row held in
    the graded columns before the loop no longer shows. *)
Lemma regrade_overwrites attemptId answers st0 qs : ∀ r r',
  same_submission r r' →
  Exists (fun q => same_answer attemptId (Question.id q) r) qs →
  regrade attemptId answers st0 qs r = regrade attemptId answers st0 qs r'.
Proof.
  induction qs as [|q qs IH]; intros r r' Hrr' Hex.
  - by apply Exists_nil in Hex.
  - simpl.
    set (ic := isCorrect (outcome st0 answers q)).
    set (pe := pointsEarned (outcome st0 answers q)).
    destruct (decide (same_answer attemptId (Question.id q) r)) as [Hs|Hs].
    + by rewrite (grade_row_overwrites _ _ ic pe r r' Hrr' Hs).
    + assert (Hs' : ¬ same_answer attemptId (Question.id q) r').
      { destruct Hrr' as (_ & Ha & Hq & _). unfold same_answer in *.
        by rewrite <- Ha, <- Hq. }
      rewrite !grade_row_other by done.
      apply IH; [done|]. apply Exists_cons in Hex as [?|?]; done.
Qed.

Lemma regrade_idempotent attemptId answers st0 qs r :
  regrade attemptId answers st0 qs (regrade attemptId answers st0 qs r)
  = regrade attemptId answers st0 qs r.
Proof.
  destruct (decide (Exists (fun q => same_answer attemptId (Question.id q) r) qs))
    as [Hex|Hex].
  - apply regrade_overwrites.
    + apply regrade_same_submission.
    + destruct (regrade_same_submission attemptId answers st0 qs r)
        as (_ & Ha & Hq & _).
      eapply Exists_impl; [exact Hex|]. intros q Hs. unfold same_answer in *.
      by rewrite Ha, Hq.
  - apply not_Exists_Forall in Hex; [|intros q; apply _].
    by rewrite !(regrade_untouched _ _ _ _ r Hex).
Qed.

Lemma grading_rows attemptId held st0 qs : ∀ st,
  answers
    (foldl (fun st1 q =>
              update_answer st1 attemptId (Question.id q)
                            (isCorrect (outcome st0 held q))
                            (pointsEarned (outcome st0 held q))) st qs)
  = regrade attemptId held st0 qs <$> answers st.
Proof.
  induction qs as [|q qs IH]; intros st; simpl.
  - by rewrite list_fmap_id.
  - rewrite IH. simpl. rewrite <- list_fmap_compose. done.
Qed.

Lemma grade_all_answers attemptId held st qs :
  answers (grade_all attemptId held st qs)
  = regrade attemptId held st qs <$> answers st.
Proof. apply grading_rows. Qed.

(** Whatever its outcome, a submission rewrites the answer rows in place. *)
Lemma handleSubmitExam_answers c now st :
  answers (handleSubmitExam c now st).2 = answers st
  ∨ ∃ attemptId exam,
      Client.attemptId c = Some attemptId
      ∧ answers (handleSubmitExam c now st).2
        = regrade attemptId (Client.answers c) st (exam_questions exam) <$> answers st.
Proof.
  destruct (Client.attemptId c) as [attemptId|] eqn:Ha;
    [|left; unfold handleSubmitExam; by rewrite Ha].
  destruct (Client.exam c) as [exam|] eqn:He;
    [|left; unfold handleSubmitExam; by rewrite Ha, He].
  right. exists attemptId, exam. split; [done|].
  rewrite (handleSubmitExam_unfold c now st attemptId exam Ha He).
  destruct (complete_attempt _ _ _ _ _) as [st2|] eqn:Hc; simpl.
  - apply complete_attempt_Some in Hc as (_ & _ & -> & _).
    apply grade_all_answers.
  - apply grade_all_answers.
Qed.

(** ** C7: a question left unanswered *)

Lemma no_row_after_submission c now st attemptId questionId :
  ¬ Exists (same_answer attemptId questionId) (answers st) →
  ¬ Exists (same_answer attemptId questionId) (answers (handleSubmitExam c now st).2).
Proof.
  intros Hno.
  destruct (handleSubmitExam_answers c now st) as [->|(a & e & _ & ->)]; [done|].
  rewrite Exists_fmap. intros Hex. apply Hno.
  eapply Exists_impl; [exact Hex|]. intros r Hs. simpl in Hs.
  destruct (regrade_same_submission a (Client.answers c) st (exam_questions e) r)
    as (_ & Ha & Hq & _).
  unfold same_answer in *. by rewrite <- Ha, <- Hq.
Qed.

Lemma update_answer_no_row st attemptId questionId ic pe :
  ¬ Exists (same_answer attemptId questionId) (answers st) →
  update_answer st attemptId questionId ic pe = st.
Proof.
  intros Hno. destruct st as [es qs ats ans]. unfold update_answer. simpl in *.
  f_equal. apply not_Exists_Forall in Hno; [|intros r; apply _].
  induction Hno as [|r ans Hr _ IH]; [done|].
  by rewrite fmap_cons, IH, grade_row_other.
Qed.

(** Against C7 as stated.  First the submission of the scenario's exam with
    nothing answered: the attempt is completed with score 0, and the answers
    table has no row for the multiple-choice question, so no
    [is_correct = false] is recorded for it.  Then the timed exam taken a
    second time with the first pick still on the page: the second attempt has
    no answer row for the question, and none after its submission, yet the
    question adds its full 1.5 points to the score. *)
Lemma question_without_row_can_earn_points :
  (Client.answers Scenario.c0 !! Question.id Scenario.q1 = None
   ∧ answers Scenario.opened.2 = []
   ∧ (handleSubmitExam Scenario.c0 5000 Scenario.opened.2).1 = Submitted
   ∧ exam_attempts (handleSubmitExam Scenario.c0 5000 Scenario.opened.2).2
     = [Attempt.mk "a1" "e1" "s1" 1000 (Some 5000) (Some 0) (Some 500) 1]
   ∧ answers (handleSubmitExam Scenario.c0 5000 Scenario.opened.2).2 = []
   ∧ ¬ (∃ r, r ∈ answers (handleSubmitExam Scenario.c0 5000 Scenario.opened.2).2
             ∧ same_answer "a1" (Question.id Scenario.q1) r
             ∧ Answer.is_correct r = Some false
             ∧ Answer.points_earned r = Some 0))
  ∧ (Retaken.reopened.2 = run empty_store Retaken.history
     ∧ Client.attemptId Retaken.c2 = Some "b2"
     ∧ answers Retaken.reopened.2
       = [Answer.mk "r4" "b1" "q4" (JNum 0) (Some true) (Some 150)]
     ∧ ¬ Exists (same_answer "b2" (Question.id Timed.q4)) (answers Retaken.reopened.2)
     ∧ (handleSubmitExam Retaken.c2 12000 Retaken.reopened.2).1 = Submitted
     ∧ exam_attempts (handleSubmitExam Retaken.c2 12000 Retaken.reopened.2).2
       = [ Attempt.mk "b1" "e2" "s1" 1000 (Some 5000) (Some 150) (Some 150) 1;
           Attempt.mk "b2" "e2" "s1" 9000 (Some 12000) (Some 150) (Some 150) 2 ]
     ∧ answers (handleSubmitExam Retaken.c2 12000 Retaken.reopened.2).2
       = [Answer.mk "r4" "b1" "q4" (JNum 0) (Some true) (Some 150)]).
Proof.
  assert (H : answers (handleSubmitExam Scenario.c0 5000 Scenario.opened.2).2 = [])
    by by vm_compute.
  split.
  - split_and!; try by vm_compute.
    rewrite H. intros (r & Hr & _). by apply elem_of_nil in Hr.
  - split_and!; try by vm_compute.
    apply (bool_decide_unpack _). by vm_compute.
Qed.

(** C7, as the code has it.  For a question that has no answer row for the
    attempt, the [update] that carries the values its turn of the loop
    computes matches no row and leaves the store as it is, and after the
    submission there is still no row for that question: nothing is recorded.
    What the turn adds to the score is decided by the answer the page holds,
    not by the rows.  With no answer on the page the computed values are
    [is_correct = false] and [points_earned = 0] for the auto-gradable types
    and the turn adds nothing; with an answer on the page that equals the key
    read back, an auto-gradable question adds its full points; a question of
    a manual type is left ungraded and adds nothing. *)
Theorem question_without_row_is_graded_from_the_page
    c now st attemptId exam q totalScore totalPoints :
  Client.attemptId c = Some attemptId →
  Client.exam c = Some exam →
  q ∈ exam_questions exam →
  ¬ Exists (same_answer attemptId (Question.id q)) (answers st) →
  grade_question attemptId (Client.answers c) (totalScore, totalPoints, st) q
    = (totalScore + default 0 (pointsEarned (outcome st (Client.answers c) q)),
       totalPoints + Question.points q, st)
  ∧ ¬ Exists (same_answer attemptId (Question.id q))
             (answers (handleSubmitExam c now st).2)
  ∧ (Client.answers c !! Question.id q = None →
       outcome st (Client.answers c) q
       = (if auto_gradable (Question.question_type q)
          then mkGraded (Some false) (Some 0) else mkGraded None None)
       ∧ grade_question attemptId (Client.answers c) (totalScore, totalPoints, st) q
         = (totalScore, totalPoints + Question.points q, st))
  ∧ (∀ key, auto_gradable (Question.question_type q) = true →
       key_shape (Question.question_type q) key →
       select_correct_answer st (Question.id q) = Some key →
       Client.answers c !! Question.id q = Some key →
       grade_question attemptId (Client.answers c) (totalScore, totalPoints, st) q
       = (totalScore + Question.points q, totalPoints + Question.points q, st))
  ∧ (auto_gradable (Question.question_type q) = false →
       outcome st (Client.answers c) q = mkGraded None None
       ∧ grade_question attemptId (Client.answers c) (totalScore, totalPoints, st) q
         = (totalScore, totalPoints + Question.points q, st)).
Proof.
  intros Ha He Hq Hno.
  assert (Hturn :
            grade_question attemptId (Client.answers c) (totalScore, totalPoints, st) q
            = (totalScore + default 0 (pointsEarned (outcome st (Client.answers c) q)),
               totalPoints + Question.points q, st)).
  { by rewrite grade_question_outcome, update_answer_no_row. }
  split; [done|]. split; [by apply no_row_after_submission|]. rewrite Hturn.
  split; [|split].
  - intros Hnone.
    assert (Ho : outcome st (Client.answers c) q
                 = (if auto_gradable (Question.question_type q)
                    then mkGraded (Some false) (Some 0) else mkGraded None None)).
    { unfold outcome. rewrite Hnone.
      destruct (auto_gradable _); [|done].
      unfold is_key. by destruct (select_correct_answer _ _). }
    split; [done|]. rewrite Ho.
    destruct (auto_gradable _); simpl; by rewrite Z.add_0_r.
  - intros key Hauto Hshape Hkey Hheld.
    rewrite (outcome_grade st (Client.answers c) q key) by done.
    rewrite Hheld. unfold grade, key_shape in *.
    destruct (Question.question_type q); try done;
      destruct key; try done; by rewrite bool_decide_true.
  - intros Hmanual. unfold outcome. rewrite Hmanual. simpl.
    by rewrite Z.add_0_r.
Qed.

(** C7 at the scenario's exam, submitted with nothing answered. *)
Lemma question_without_row_is_graded_from_the_page_witness :
  Scenario.q1 ∈ [Scenario.q1; Scenario.q2]
  ∧ grade_question "a1" (Client.answers Scenario.c0) (0, 0, Scenario.opened.2)
                   Scenario.q1
    = (0, 0 + 200, Scenario.opened.2)
  ∧ outcome Scenario.opened.2 (Client.answers Scenario.c0) Scenario.q1
    = mkGraded (Some false) (Some 0)
  ∧ ¬ Exists (same_answer "a1" (Question.id Scenario.q1))
             (answers (handleSubmitExam Scenario.c0 5000 Scenario.opened.2).2).
Proof.
  assert (Hq : Scenario.q1 ∈ [Scenario.q1; Scenario.q2]) by apply list_elem_of_here.
  split; [exact Hq|].
  destruct (question_without_row_is_graded_from_the_page Scenario.c0 5000
              Scenario.opened.2 "a1" (mkExamData Scenario.e1 [Scenario.q1; Scenario.q2])
              Scenario.q1 0 0) as (_ & Hrow & Hzero & _).
  - by vm_compute.
  - by vm_compute.
  - exact Hq.
  - change (answers Scenario.opened.2) with (@nil Answer.t).
    intros H. inversion H.
  - destruct Hzero as [Ho Hturn]; [by vm_compute|].
    split; [exact Hturn|]. split; [exact Ho|exact Hrow].
Defined.

(** ** C3: a second submission *)

Lemma complete_row_twice attemptId now now' score totalPoints a :
  complete_row attemptId now' score totalPoints
    (complete_row attemptId now score totalPoints a)
  = complete_row attemptId now' score totalPoints a.
Proof. unfold complete_row. by repeat (case_bool_decide; simpl in * ). Qed.

Lemma complete_row_keeps_marks attemptId now now' score totalPoints a :
  marks (complete_row attemptId now' score totalPoints a)
  = marks (complete_row attemptId now score totalPoints a).
Proof. unfold complete_row, marks. by case_bool_decide. Qed.

(** Against C3 as stated.  The student submits (score 2 of 5), changes the
    pick with the page still
    open and submits again: the second call is not refused, it completes the
    attempt a second time and replaces the score by 0. *)
Lemma second_submission_changes_score :
  exam_attempts Scenario.repicked.2
    = [Attempt.mk "a1" "e1" "s1" 1000 (Some 5000) (Some 200) (Some 500) 1]
  ∧ Client.attemptId Scenario.repicked.1 = Some "a1"
  ∧ (handleSubmitExam Scenario.repicked.1 6000 Scenario.repicked.2).1 = Submitted
  ∧ exam_attempts (handleSubmitExam Scenario.repicked.1 6000 Scenario.repicked.2).2
    = [Attempt.mk "a1" "e1" "s1" 1000 (Some 6000) (Some 0) (Some 500) 1].
Proof. by vm_compute. Qed.

(** C3, as the code has it.  [handleSubmitExam] does not look at
    [completed_at]: called again for an attempt it has completed, it is not
    refused.  It grades again, from the answers the page holds, and completes
    again, stamping [completed_at] anew.  With the page's answers as they
    were and [exams] and [questions] as the first call left them, so that the
    same keys can be read back, it writes the same [score] and
    [total_points]; where the attempt rows are as the first call left them
    the marks of every row stay the same, and where the answer rows are as
    the first call left them they stay as they are. *)
Theorem second_submission_regrades c now now' st st' st2 attemptId exam :
  Client.attemptId c = Some attemptId →
  Client.exam c = Some exam →
  handleSubmitExam c now st = (Submitted, st') →
  same_catalog st' st2 →
  ∃ st'',
    handleSubmitExam c now' st2 = (Submitted, st'')
    ∧ (∀ a' a'', a' ∈ exam_attempts st' → Attempt.id a' = attemptId →
         a'' ∈ exam_attempts st'' → Attempt.id a'' = attemptId →
         Attempt.score a'' = Attempt.score a'
         ∧ Attempt.total_points a'' = Attempt.total_points a'
         ∧ Attempt.completed_at a'' = Some now')
    ∧ (exam_attempts st2 = exam_attempts st' →
         marks <$> exam_attempts st'' = marks <$> exam_attempts st')
    ∧ (answers st2 = answers st' → answers st'' = answers st').
Proof.
  intros Ha He Hs [Hes2 Hqs2].
  pose proof (handleSubmitExam_Submitted c now st st' attemptId exam Ha He Hs)
    as (Hans & Hq & Hatt).
  assert (Hq2 : same_catalog st st2).
  { destruct Hq as [Hes Hqs]. split; congruence. }
  set (qs := exam_questions exam) in *.
  set (score := sum_Z (earned st (Client.answers c) qs)) in *.
  set (total := sum_Z (Question.points <$> qs)) in *.
  assert (Hfit : decimal_5_2 score && decimal_5_2 total = true).
  { rewrite (handleSubmitExam_unfold c now st attemptId exam Ha He) in Hs.
    fold qs score total in Hs. unfold complete_attempt in Hs.
    by destruct (decimal_5_2 score && decimal_5_2 total). }
  assert (Hearned : earned st2 (Client.answers c) qs = earned st (Client.answers c) qs)
    by by apply earned_questions.
  rewrite (handleSubmitExam_unfold c now' st2 attemptId exam Ha He).
  fold qs total. rewrite Hearned. fold score.
  unfold complete_attempt. rewrite Hfit.
  eexists. split; [done|]. simpl.
  destruct (grade_all_frame attemptId (Client.answers c) st2 qs st2) as (_ & _ & Hatt').
  unfold grade_all. rewrite Hatt'. split; [|split].
  - intros a' a'' Hin' Hid' Hin'' Hid''. rewrite Hatt in Hin'.
    destruct (completed_rows _ _ _ _ _ _ Hin' Hid') as (_ & -> & ->).
    destruct (completed_rows _ _ _ _ _ _ Hin'' Hid'') as (-> & -> & ->). done.
  - intros ->. rewrite Hatt, <- !list_fmap_compose. apply list_fmap_ext.
    intros i a _. simpl. rewrite complete_row_twice. apply complete_row_keeps_marks.
  - intros Hsame. rewrite grading_rows, Hsame, Hans, grade_all_answers,
      <- list_fmap_compose.
    apply list_fmap_ext. intros i r _. simpl.
    rewrite (regrade_questions attemptId (Client.answers c) st st2 qs) by done.
    apply regrade_idempotent.
Qed.

(** C3 at the scenario's submission, submitted a second time one second
    later. *)
Lemma second_submission_regrades_witness :
  handleSubmitExam Scenario.written.1 5000 Scenario.written.2
    = (Submitted, Scenario.submitted.2)
  ∧ ∃ st'',
      handleSubmitExam Scenario.written.1 6000 Scenario.submitted.2 = (Submitted, st'')
      ∧ (∀ a' a'', a' ∈ exam_attempts Scenario.submitted.2 → Attempt.id a' = "a1" →
           a'' ∈ exam_attempts st'' → Attempt.id a'' = "a1" →
           Attempt.score a'' = Attempt.score a'
           ∧ Attempt.total_points a'' = Attempt.total_points a'
           ∧ Attempt.completed_at a'' = Some 6000)
      ∧ (exam_attempts Scenario.submitted.2 = exam_attempts Scenario.submitted.2 →
           marks <$> exam_attempts st'' = marks <$> exam_attempts Scenario.submitted.2)
      ∧ (answers Scenario.submitted.2 = answers Scenario.submitted.2 →
           answers st'' = answers Scenario.submitted.2).
Proof.
  split; [by vm_compute|].
  refine (second_submission_regrades Scenario.written.1 5000 6000 Scenario.written.2
            Scenario.submitted.2 Scenario.submitted.2 "a1"
            (mkExamData Scenario.e1 [Scenario.q1; Scenario.q2]) _ _ _ _).
  - by vm_compute.
  - by vm_compute.
  - by vm_compute.
  - split; reflexivity.
Defined.

(** ** Histories: what each action leaves alone *)

Lemma run_snoc st history a : run st (history ++ [a]) = perform (run st history) a.
Proof. unfold run. by rewrite foldl_snoc. Qed.

Lemma insert_attempt_Some st uuid now examId studentId n a st' :
  insert_attempt st uuid now examId studentId n = Some (a, st') →
  a = Attempt.mk uuid examId studentId now None None None n
  ∧ exams st' = exams st ∧ questions st' = questions st
  ∧ answers st' = answers st
  ∧ exam_attempts st' = exam_attempts st ++ [a]
  ∧ ¬ Exists (fun b => Attempt.id b = uuid) (exam_attempts st)
  ∧ ¬ Exists (fun b => Attempt.exam_id b = examId ∧ Attempt.student_id b = studentId
                       ∧ Attempt.attempt_number b = n) (exam_attempts st).
Proof.
  unfold insert_attempt. repeat case_bool_decide; try done.
  intros [= <- <-]. done.
Qed.

(** [loadExam] touches the store only when it starts an attempt, and then
    only by one new row of [exam_attempts]. *)
Lemma loadExam_store c examId user now uuid st :
  ((loadExam c examId user now uuid st).2 = st
   ∧ ∀ c', (loadExam c examId user now uuid st).1 ≠ Started c')
  ∨ ∃ e s c' a,
      examId = Some e ∧ user = Some s
      ∧ loadExam c examId user now uuid st
        = (Started c', mkStore (exams st) (questions st)
                               (exam_attempts st ++ [a]) (answers st))
      ∧ a = Attempt.mk uuid e s now None None None
                       (Z.of_nat (length (select_attempts st e s)) + 1)
      ∧ Client.attemptId c' = Some uuid.
Proof.
  unfold loadExam.
  destruct examId as [e|]; [|by left]. destruct user as [s|]; [|by left].
  destruct (select_active_exam st e) as [examData|]; [|by left].
  destruct (_ && _); [by left|].
  destruct (List.find incomplete _); [by left|].
  destruct (insert_attempt _ _ _ _ _ _) as [[a st']|] eqn:Hi; [|by left].
  right. apply insert_attempt_Some in Hi as (Ha & He & Hq & Hans & Hatt & _).
  eexists e, s, _, a. split_and!; try done.
  - destruct st'; simpl in *. by subst.
  - simpl. by rewrite Ha.
Qed.

Lemma loadExam_answers c examId user now uuid st :
  answers (loadExam c examId user now uuid st).2 = answers st.
Proof.
  destruct (loadExam_store c examId user now uuid st)
    as [[-> _]|(e & s & c' & a & _ & _ & -> & _)]; done.
Qed.

Lemma upsert_answer_Some target st uuid attemptId questionId value st' :
  upsert_answer target st uuid attemptId questionId value = Some st' →
  exam_attempts st' = exam_attempts st
  ∧ (answers st' = overwrite_value attemptId questionId value <$> answers st
     ∨ answers st' =
         answers st ++ [Answer.mk uuid attemptId questionId value None (Some 0)]).
Proof.
  unfold upsert_answer. repeat (case_bool_decide; simpl); try done.
  - destruct target; [done|]. intros [= <-]. split; [done|by left].
  - intros [= <-]. split; [done|by right].
Qed.

Lemma saveAnswer_store target c uuid questionId value st :
  exam_attempts (saveAnswer target c uuid questionId value st) = exam_attempts st
  ∧ (answers (saveAnswer target c uuid questionId value st) = answers st
     ∨ ∃ attemptId,
         Client.attemptId c = Some attemptId
         ∧ (answers (saveAnswer target c uuid questionId value st)
            = overwrite_value attemptId questionId value <$> answers st
            ∨ answers (saveAnswer target c uuid questionId value st)
              = answers st
                  ++ [Answer.mk uuid attemptId questionId value None (Some 0)])).
Proof.
  unfold saveAnswer. destruct (Client.attemptId c) as [attemptId|]; [|by split; [|left]].
  destruct (upsert_answer _ _ _ _ _ _) as [st'|] eqn:Hu; [|by split; [|left]].
  apply upsert_answer_Some in Hu as [Hatt Hans]. split; [done|].
  right. by exists attemptId.
Qed.

Lemma overwrite_value_graded attemptId questionId value r :
  Answer.attempt_id (overwrite_value attemptId questionId value r) = Answer.attempt_id r
  ∧ Answer.is_correct (overwrite_value attemptId questionId value r) = Answer.is_correct r
  ∧ Answer.points_earned (overwrite_value attemptId questionId value r)
    = Answer.points_earned r.
Proof. unfold overwrite_value. by case_bool_decide. Qed.

(** ** C9: answers saved and not yet graded *)

(** Against C9 as stated.  The answer saved in that history has
    [points_earned = 0], the column
    default, and not [null], with the attempt still open. *)
Lemma saved_answer_has_zero_points :
  Forall (fun a => ¬ submits "a1" a) SavedAnswer.history
  ∧ exam_attempts (run empty_store SavedAnswer.history)
    = [Attempt.mk "a1" "e1" "s1" 1000 None None None 1]
  ∧ answers (run empty_store SavedAnswer.history)
    = [Answer.mk "r1" "a1" "q1" (JNum 1) None (Some 0)]
  ∧ Answer.points_earned (Answer.mk "r1" "a1" "q1" (JNum 1) None (Some 0)) ≠ None.
Proof.
  split; [|by vm_compute].
  repeat constructor; simpl; tauto.
Qed.

(** C9, as the code has it.  In every state reached without a submission of
    the attempt, by any choice of conflict resolution for the upsert, every
    answer row of the attempt has [is_correct = NULL] and [points_earned = 0]:
    the defaults of the two columns, which saving never writes.  Only the
    grading of a submission of that attempt writes them. *)
Theorem saved_answers_are_ungraded history attemptId :
  Forall (fun a => ¬ submits attemptId a) history →
  ∀ r, r ∈ answers (run empty_store history) →
       Answer.attempt_id r = attemptId →
       Answer.is_correct r = None ∧ Answer.points_earned r = Some 0.
Proof.
  induction history as [|a history IH] using rev_ind; intros Hno r Hin Hr.
  - by apply elem_of_nil in Hin.
  - apply Forall_app in Hno as [Hno Ha]. rewrite Forall_singleton in Ha.
    specialize (IH Hno). rewrite run_snoc in Hin.
    set (st := run empty_store history) in *.
    destruct a as [c e u now uuid|target c uuid q v|c now|es qs]; simpl in Hin.
    + rewrite loadExam_answers in Hin. by apply IH.
    + destruct (saveAnswer_store target c uuid q v st)
        as [_ [Hs|(aid & _ & [Hs|Hs])]]; rewrite Hs in Hin.
      * by apply IH.
      * apply list_elem_of_fmap in Hin as (r0 & -> & Hin).
        destruct (overwrite_value_graded aid q v r0) as (Hid & -> & ->).
        apply IH; [done|]. by rewrite <- Hid.
      * apply elem_of_app in Hin as [Hin|Hin]; [by apply IH|].
        apply list_elem_of_singleton in Hin as ->. done.
    + destruct (handleSubmitExam_answers c now st) as [Hs|(aid & e & Hc & Hs)];
        rewrite Hs in Hin; [by apply IH|].
      apply list_elem_of_fmap in Hin as (r0 & -> & Hin).
      destruct (regrade_same_submission aid (Client.answers c) st (exam_questions e) r0)
        as (_ & Hid & _).
      assert (Hne : Answer.attempt_id r0 ≠ aid).
      { rewrite <- Hid, Hr. intros ->. by apply Ha. }
      rewrite (regrade_other_attempt _ _ _ _ _ Hne) in *. by apply IH.
    + apply list_elem_of_filter in Hin as [_ Hin]. by apply IH.
Qed.

(** C9 at the history of the saved answer. *)
Lemma saved_answers_are_ungraded_witness :
  Forall (fun a => ¬ submits "a1" a) SavedAnswer.history
  ∧ ∀ r, r ∈ answers (run empty_store SavedAnswer.history) →
         Answer.attempt_id r = "a1" →
         Answer.is_correct r = None ∧ Answer.points_earned r = Some 0.
Proof.
  assert (H : Forall (fun a => ¬ submits "a1" a) SavedAnswer.history).
  { repeat constructor; simpl; tauto. }
  split; [exact H|].
  exact (saved_answers_are_ungraded SavedAnswer.history "a1" H).
Defined.

(** ** C4, C5, C6: starting and resuming attempts *)

Lemma length_insert_desc a l : length (insert_desc a l) = S (length l).
Proof.
  induction l as [|b l IH]; simpl; [done|].
  case_bool_decide; simpl; by rewrite ?IH.
Qed.

Lemma length_order_attempt_number_desc l :
  length (order_attempt_number_desc l) = length l.
Proof.
  induction l as [|a l IH]; simpl; [done|].
  by rewrite length_insert_desc, IH.
Qed.

Lemma length_select_attempts st e s :
  length (select_attempts st e s) = length (attempts_of st e s).
Proof. apply length_order_attempt_number_desc. Qed.

Lemma sequential_snoc l :
  sequential l → sequential (l ++ [Z.of_nat (length l) + 1]).
Proof.
  unfold sequential. intros Hl.
  rewrite length_app, Nat.add_1_r, seq_S, fmap_app, <- Hl. simpl.
  do 2 f_equal. lia.
Qed.

Lemma sequential_NoDup l : sequential l → NoDup l.
Proof.
  intros ->. apply NoDup_fmap; [intros x y; apply Nat2Z.inj|apply NoDup_seq].
Qed.

Lemma numbers_ext st st' e s :
  exam_attempts st' = exam_attempts st → numbers st' e s = numbers st e s.
Proof. intros H. unfold numbers, attempts_of. by rewrite H. Qed.

Lemma complete_row_triple attemptId now score totalPoints a :
  triple (complete_row attemptId now score totalPoints a) = triple a.
Proof. unfold complete_row, triple. by case_bool_decide. Qed.

Lemma numbers_complete_row attemptId now score totalPoints (l : list Attempt.t) e s :
  Attempt.attempt_number
    <$> filter (fun a => Attempt.exam_id a = e ∧ Attempt.student_id a = s)
               (complete_row attemptId now score totalPoints <$> l)
  = Attempt.attempt_number
    <$> filter (fun a => Attempt.exam_id a = e ∧ Attempt.student_id a = s) l.
Proof.
  induction l as [|a l IH]; [done|].
  rewrite fmap_cons, !filter_cons.
  pose proof (complete_row_triple attemptId now score totalPoints a) as Ht.
  unfold triple in Ht. injection Ht as He Hs Hn.
  rewrite He, Hs. case_decide; [|done].
  by rewrite !fmap_cons, Hn, IH.
Qed.

Lemma handleSubmitExam_attempts c now st :
  exam_attempts (handleSubmitExam c now st).2 = exam_attempts st
  ∨ ∃ attemptId score totalPoints,
      exam_attempts (handleSubmitExam c now st).2
      = complete_row attemptId now score totalPoints <$> exam_attempts st.
Proof.
  destruct (Client.attemptId c) as [attemptId|] eqn:Ha;
    [|left; unfold handleSubmitExam; by rewrite Ha].
  destruct (Client.exam c) as [exam|] eqn:He;
    [|left; unfold handleSubmitExam; by rewrite Ha, He].
  rewrite (handleSubmitExam_unfold c now st attemptId exam Ha He).
  destruct (grade_all_frame attemptId (Client.answers c) st (exam_questions exam) st)
    as (_ & _ & Hatt).
  destruct (complete_attempt _ _ _ _ _) as [st2|] eqn:Hc; simpl.
  - right. apply complete_attempt_Some in Hc as (_ & _ & _ & ->).
    unfold grade_all. rewrite Hatt. by eexists _, _, _.
  - left. apply Hatt.
Qed.

(** The attempts of a pair after the cascade of a deleted exam. *)
Lemma filter_cascade (keep : string → Prop) `{!∀ x, Decision (keep x)}
    (l : list Attempt.t) e s :
  filter (fun a => Attempt.exam_id a = e ∧ Attempt.student_id a = s)
         (filter (fun a => keep (Attempt.exam_id a)) l)
  = if decide (keep e)
    then filter (fun a => Attempt.exam_id a = e ∧ Attempt.student_id a = s) l
    else [].
Proof.
  destruct (decide (keep e)) as [Hke|Hke].
  - induction l as [|a l IH]; [done|].
    rewrite (filter_cons (fun a => keep (Attempt.exam_id a))).
    destruct (decide (keep (Attempt.exam_id a))) as [Hk|Hk].
    + rewrite !filter_cons, IH. done.
    + rewrite IH, filter_cons. rewrite decide_False; [done|].
      intros [He _]. by subst.
  - induction l as [|a l IH]; [done|].
    rewrite (filter_cons (fun a => keep (Attempt.exam_id a))).
    destruct (decide (keep (Attempt.exam_id a))) as [Hk|Hk]; [|done].
    rewrite filter_cons, IH. rewrite decide_False; [done|].
    intros [He _]. by subst.
Qed.

(** Every store a history reaches numbers the attempts of each pair 1, 2, ...
    in the order of their creation. *)
Lemma reachable_sequential history e s :
  sequential (numbers (run empty_store history) e s).
Proof.
  induction history as [|a history IH] using rev_ind; [done|].
  rewrite run_snoc. set (st := run empty_store history) in *.
  destruct a as [c e0 u0 now uuid|target c uuid q v|c now|es qs]; cbn [perform].
  - destruct (loadExam_store c e0 u0 now uuid st)
      as [[-> _]|(e1 & s1 & c' & a & -> & -> & -> & Ha & _)]; [done|].
    unfold numbers, attempts_of in *. simpl. rewrite filter_app, fmap_app.
    rewrite filter_cons, filter_nil. case_decide as Hpair.
    + rewrite Ha in Hpair. simpl in Hpair. destruct Hpair as [-> ->].
      rewrite Ha. simpl. rewrite length_select_attempts.
      unfold attempts_of. 
      replace (length (filter _ (exam_attempts st)))
        with (length (Attempt.attempt_number
                        <$> filter (fun a => Attempt.exam_id a = e
                                             ∧ Attempt.student_id a = s)
                                   (exam_attempts st)))
        by apply length_fmap.
      by apply sequential_snoc.
    + by rewrite app_nil_r.
  - rewrite (numbers_ext st); [done|].
    apply (saveAnswer_store target c uuid q v st).
  - destruct (handleSubmitExam_attempts c now st) as [Hs|(aid & sc & tp & Hs)].
    + by rewrite (numbers_ext st).
    + unfold numbers, attempts_of in *. by rewrite Hs, numbers_complete_row.
  - unfold numbers, attempts_of, author in *. cbn [exam_attempts].
    pose proof (filter_cascade (fun x => Exists (fun e1 => Exam.id e1 = x) es)
                  (exam_attempts st) e s) as Hc.
    cbv beta in Hc. rewrite Hc. by case_decide.
Qed.

Lemma NoDup_triples (l : list Attempt.t) :
  (∀ e s, NoDup (Attempt.attempt_number
                   <$> filter (fun a => Attempt.exam_id a = e
                                        ∧ Attempt.student_id a = s) l)) →
  NoDup (triple <$> l).
Proof.
  induction l as [|a l IH]; intros H; [constructor|].
  rewrite fmap_cons. apply NoDup_cons. split.
  - intros (b & Hb & Hin)%list_elem_of_fmap.
    specialize (H (Attempt.exam_id a) (Attempt.student_id a)).
    rewrite filter_cons, decide_True, fmap_cons in H by done.
    apply NoDup_cons in H as [H _]. apply H.
    unfold triple in Hb. injection Hb as He Hs Hn. rewrite Hn.
    apply list_elem_of_fmap. exists b. split; [done|].
    apply list_elem_of_filter. by split.
  - apply IH. intros e s. specialize (H e s).
    rewrite filter_cons in H. case_decide; [|done].
    rewrite fmap_cons in H. by apply NoDup_cons in H as [_ H].
Qed.

Lemma reachable_unique history :
  NoDup (triple <$> exam_attempts (run empty_store history)).
Proof.
  apply NoDup_triples. intros e s.
  apply (sequential_NoDup _ (reachable_sequential history e s)).
Qed.

(** C6.  In a store reached by any history, a [loadExam] that starts an
    attempt inserts one row whose [attempt_number] is the number of attempts
    the student already has for the exam, plus one; after it, as before, the
    attempt numbers of every (exam, student) pair are 1, 2, ..., n in the
    order of creation, and no two rows share (exam, student, attempt
    number). *)
Theorem new_attempt_is_numbered_next history c examId user now uuid c' st' :
  loadExam c examId user now uuid (run empty_store history) = (Started c', st') →
  ∃ e s a,
    examId = Some e ∧ user = Some s
    ∧ exam_attempts st' = exam_attempts (run empty_store history) ++ [a]
    ∧ Attempt.id a = uuid ∧ Client.attemptId c' = Some uuid
    ∧ Attempt.exam_id a = e ∧ Attempt.student_id a = s
    ∧ Attempt.attempt_number a
      = Z.of_nat (length (attempts_of (run empty_store history) e s)) + 1
    ∧ (∀ e1 s1, sequential (numbers st' e1 s1))
    ∧ NoDup (triple <$> exam_attempts st').
Proof.
  intros Hload.
  assert (Hst' : st' = run empty_store (history ++ [Load c examId user now uuid])).
  { rewrite run_snoc. simpl. by rewrite Hload. }
  set (st := run empty_store history) in *.
  destruct (loadExam_store c examId user now uuid st)
    as [[_ Hno]|(e & s & c1 & a & -> & -> & Heq & Ha & Hc)].
  { exfalso. apply (Hno c'). by rewrite Hload. }
  rewrite Hload in Heq. injection Heq as -> Hst.
  exists e, s, a. rewrite <- length_select_attempts.
  split_and!; try done; try by rewrite Ha.
  - by rewrite Hst.
  - intros e1 s1. rewrite Hst'. apply reachable_sequential.
  - rewrite Hst'. apply reachable_unique.
Qed.

(** C6 at the scenario's first [loadExam]. *)
Lemma new_attempt_is_numbered_next_witness :
  loadExam Client.initial (Some "e1") (Some "s1") 1000 "a1"
           (run empty_store [Author [Scenario.e1] [Scenario.q2; Scenario.q1]])
    = (Started Scenario.c0, Scenario.opened.2)
  ∧ ∃ e s a,
      Some "e1" = Some e ∧ Some "s1" = Some s
      ∧ exam_attempts Scenario.opened.2
        = exam_attempts
            (run empty_store [Author [Scenario.e1] [Scenario.q2; Scenario.q1]]) ++ [a]
      ∧ Attempt.id a = "a1" ∧ Client.attemptId Scenario.c0 = Some "a1"
      ∧ Attempt.exam_id a = e ∧ Attempt.student_id a = s
      ∧ Attempt.attempt_number a
        = Z.of_nat
            (length (attempts_of
                       (run empty_store
                            [Author [Scenario.e1] [Scenario.q2; Scenario.q1]]) e s)) + 1
      ∧ (∀ e1 s1, sequential (numbers Scenario.opened.2 e1 s1))
      ∧ NoDup (triple <$> exam_attempts Scenario.opened.2).
Proof.
  assert (H : loadExam Client.initial (Some "e1") (Some "s1") 1000 "a1"
                (run empty_store [Author [Scenario.e1] [Scenario.q2; Scenario.q1]])
              = (Started Scenario.c0, Scenario.opened.2)) by by vm_compute.
  split; [exact H|].
  exact (new_attempt_is_numbered_next
           [Author [Scenario.e1] [Scenario.q2; Scenario.q1]]
           Client.initial (Some "e1") (Some "s1") 1000 "a1"
           Scenario.c0 Scenario.opened.2 H).
Defined.

(** The limit test of [loadExam], on the number of attempts of the pair. *)
Lemma loadExam_limit c e s now uuid st examData :
  select_active_exam st e = Some examData →
  loadExam c (Some e) (Some s) now uuid st =
    if bool_decide (to_number (Exam.max_attempts (exam_row examData))
                    ≤ Z.of_nat (length (attempts_of st e s)))
       && negb (bool_decide (Exam.max_attempts (exam_row examData) = Some 999))
    then (LimitReached, st)
    else loadExam c (Some e) (Some s) now uuid st.
Proof.
  intros He. destruct (_ && _) eqn:Hlim; [|done].
  unfold loadExam. rewrite He, length_select_attempts. by rewrite Hlim.
Qed.

Lemma loadExam_unlimited c e s now uuid st examData :
  select_active_exam st e = Some examData →
  Exam.max_attempts (exam_row examData) = Some 999 →
  (loadExam c (Some e) (Some s) now uuid st).1 ≠ LimitReached.
Proof.
  intros He Hmax. unfold loadExam. rewrite He, Hmax.
  rewrite (bool_decide_true (Some 999 = Some 999)) by done.
  rewrite andb_false_r.
  destruct (List.find incomplete _); [done|].
  by destruct (insert_attempt _ _ _ _ _ _) as [[]|].
Qed.

Lemma length_attempts_complete_row attemptId now score totalPoints
    (l : list Attempt.t) e s :
  length (filter (fun a => Attempt.exam_id a = e ∧ Attempt.student_id a = s)
                 (complete_row attemptId now score totalPoints <$> l))
  = length (filter (fun a => Attempt.exam_id a = e ∧ Attempt.student_id a = s) l).
Proof.
  rewrite <- (length_fmap Attempt.attempt_number), numbers_complete_row.
  apply length_fmap.
Qed.

Lemma attempts_after e s st a :
  keeps_exam e a →
  length (attempts_of (perform st a) e s)
  = (length (attempts_of st e s) + (if starts e s st a then 1 else 0))%nat.
Proof.
  intros Hk.
  destruct a as [c0 e0 u0 now uuid|target c0 uuid q v|c0 now|es qs]; cbn [perform].
  - destruct (loadExam_store c0 e0 u0 now uuid st)
      as [[-> Hno]|(e1 & s1 & c' & a & -> & -> & Heq & Ha & _)].
    + assert (starts e s st (Load c0 e0 u0 now uuid) = false) as ->; [|lia].
      unfold starts. destruct e0 as [e0|]; [|done]. destruct u0 as [u0|]; [|done].
      destruct (loadExam _ _ _ _ _ _).1 as [| | | |c1] eqn:Ho;
        rewrite ?andb_false_r; try done.
      by destruct (Hno c1).
    + unfold starts. rewrite Heq. cbn [fst snd]. rewrite andb_true_r.
      unfold attempts_of. cbn [exam_attempts].
      rewrite filter_app, length_app, filter_cons, filter_nil.
      rewrite Ha. cbn [Attempt.exam_id Attempt.student_id].
      destruct (decide (e1 = e ∧ s1 = s)) as [Hp|Hp].
      * by rewrite bool_decide_true.
      * by rewrite bool_decide_false.
  - unfold attempts_of.
    rewrite (proj1 (saveAnswer_store target c0 uuid q v st)). simpl. lia.
  - unfold attempts_of.
    destruct (handleSubmitExam_attempts c0 now st) as [->|(aid & sc & tp & ->)].
    + simpl. lia.
    + rewrite length_attempts_complete_row. simpl. lia.
  - unfold attempts_of, author. cbn [exam_attempts].
    pose proof (filter_cascade (fun x => Exists (fun e1 => Exam.id e1 = x) es)
                  (exam_attempts st) e s) as Hc.
    cbv beta in Hc. rewrite Hc. simpl in Hk. rewrite decide_True by done.
    simpl. lia.
Qed.

(** Every attempt that was started is there to be counted. *)
Lemma attempts_started e s history : ∀ st,
  Forall (keeps_exam e) history →
  length (attempts_of (run st history) e s)
  = (length (attempts_of st e s) + started e s st history)%nat.
Proof.
  induction history as [|a history IH]; intros st Hk; simpl; [lia|].
  apply Forall_cons in Hk as [Ha Hk].
  unfold run in IH. rewrite IH, attempts_after by done. lia.
Qed.

(** C5.  With the exam active and [max_attempts = N], N other than 999, a
    [loadExam] of a student who already has N attempts for the exam (or more)
    is refused as [LimitReached] and leaves the store as it is; so is the call
    that comes after N calls that each started an attempt, whatever else
    happened in between, as long as the exam was not deleted.  With
    [max_attempts = 999] no call ends in [LimitReached]. *)
Theorem attempt_limit c examId user now uuid st examData n :
  select_active_exam st examId = Some examData →
  Exam.max_attempts (exam_row examData) = Some n →
  (n ≠ 999 → n ≤ Z.of_nat (length (attempts_of st examId user)) →
     loadExam c (Some examId) (Some user) now uuid st = (LimitReached, st))
  ∧ (n ≠ 999 → ∀ history,
       st = run empty_store history →
       Forall (keeps_exam examId) history →
       n ≤ Z.of_nat (started examId user empty_store history) →
       loadExam c (Some examId) (Some user) now uuid st = (LimitReached, st))
  ∧ (n = 999 →
       (loadExam c (Some examId) (Some user) now uuid st).1 ≠ LimitReached).
Proof.
  intros He Hmax.
  assert (Hlimit : n ≠ 999 → n ≤ Z.of_nat (length (attempts_of st examId user)) →
            loadExam c (Some examId) (Some user) now uuid st = (LimitReached, st)).
  { intros Hn Hcount.
    rewrite (loadExam_limit c examId user now uuid st examData He), Hmax.
    simpl. rewrite bool_decide_true by done.
    rewrite bool_decide_false by congruence. done. }
  split; [done|]. split.
  - intros Hn history -> Hk Hstarted. apply Hlimit; [done|].
    rewrite (attempts_started examId user history empty_store Hk). simpl. lia.
  - intros ->. by eapply loadExam_unlimited.
Qed.

(** C5 at the scenario: [max_attempts = 1], attempt 1 completed, and the next
    [loadExam] is refused. *)
Lemma attempt_limit_witness :
  select_active_exam Scenario.submitted.2 "e1"
    = Some (mkExamData Scenario.e1 [Scenario.q2; Scenario.q1])
  ∧ 1 ≤ Z.of_nat (length (attempts_of Scenario.submitted.2 "e1" "s1"))
  ∧ loadExam Client.initial (Some "e1") (Some "s1") 7000 "a2" Scenario.submitted.2
    = (LimitReached, Scenario.submitted.2).
Proof.
  assert (He : select_active_exam Scenario.submitted.2 "e1"
               = Some (mkExamData Scenario.e1 [Scenario.q2; Scenario.q1]))
    by by vm_compute.
  assert (Hcount : 1 ≤ Z.of_nat (length (attempts_of Scenario.submitted.2 "e1" "s1")))
    by by vm_compute.
  split; [exact He|]. split; [exact Hcount|].
  refine (proj1 (attempt_limit Client.initial "e1" "s1" 7000 "a2"
                   Scenario.submitted.2 _ 1 He eq_refl) _ Hcount).
  done.
Defined.

(** C4.  The student opens the exam (attempt 1 is started, [max_attempts] is
    the default 1) and, with nothing submitted, loads the page again: the
    limit test comes before the search for an incomplete attempt and counts
    the open attempt, so the second call ends in [LimitReached] where the
    attempt should have been taken up again. *)
Theorem reload_of_open_attempt_is_refused :
  Exam.max_attempts Scenario.e1 = Some 1
  ∧ loadExam Client.initial (Some "e1") (Some "s1") 1000 "a1" Scenario.catalog
    = (Started Scenario.c0, Scenario.opened.2)
  ∧ exam_attempts Scenario.opened.2
    = [Attempt.mk "a1" "e1" "s1" 1000 None None None 1]
  ∧ loadExam Client.initial (Some "e1") (Some "s1") 2000 "a2" Scenario.opened.2
    = (LimitReached, Scenario.opened.2).
Proof. by vm_compute. Qed.

Lemma elem_of_insert_desc a b l : a ∈ insert_desc b l ↔ a = b ∨ a ∈ l.
Proof.
  induction l as [|x l IH]; simpl.
  - rewrite list_elem_of_singleton, elem_of_nil. tauto.
  - case_bool_decide; rewrite !elem_of_cons, ?IH; tauto.
Qed.

Lemma elem_of_order_attempt_number_desc a l :
  a ∈ order_attempt_number_desc l ↔ a ∈ l.
Proof.
  induction l as [|x l IH]; simpl; [done|].
  by rewrite elem_of_insert_desc, elem_of_cons, IH.
Qed.

(** The resume path, where the limit test lets it be reached: the call takes
    up an incomplete attempt of the pair, loads its saved answers and leaves
    the store as it is. *)
Lemma loadExam_resumes c e s now uuid st examData :
  select_active_exam st e = Some examData →
  (Z.of_nat (length (attempts_of st e s))
     < to_number (Exam.max_attempts (exam_row examData))
   ∨ Exam.max_attempts (exam_row examData) = Some 999) →
  Exists (fun a => incomplete a = true) (attempts_of st e s) →
  ∃ a c',
    loadExam c (Some e) (Some s) now uuid st = (Resumed c', st)
    ∧ a ∈ attempts_of st e s ∧ incomplete a = true
    ∧ Client.attemptId c' = Some (Attempt.id a)
    ∧ Client.answers c' = answers_map (select_answers st (Attempt.id a)).
Proof.
  intros He Hlim Hex. unfold loadExam. rewrite He, length_select_attempts.
  assert (bool_decide (to_number (Exam.max_attempts (exam_row examData))
                       ≤ Z.of_nat (length (attempts_of st e s)))
          && negb (bool_decide (Exam.max_attempts (exam_row examData) = Some 999))
          = false) as ->.
  { destruct Hlim as [Hlt|Hmax].
    - rewrite bool_decide_false by lia. done.
    - rewrite (bool_decide_true (_ = Some 999)) by done. apply andb_false_r. }
  destruct (List.find incomplete (select_attempts st e s)) as [a|] eqn:Hfind.
  - apply find_some in Hfind as [Hin Hinc].
    apply list_elem_of_In in Hin. unfold select_attempts in Hin.
    rewrite elem_of_order_attempt_number_desc in Hin.
    eexists a, _. split; [reflexivity|]. done.
  - exfalso. apply Exists_exists in Hex as (a & Hin & Hinc).
    rewrite <- elem_of_order_attempt_number_desc in Hin.
    apply list_elem_of_In in Hin.
    pose proof (find_none _ _ Hfind a Hin). congruence.
Qed.

(** ** C8: access codes *)

Section GeneratorFacts.
Context (md5 : string → N) (random_text : nat → string) (st : store).

Local Abbreviation candidate := (AccessCode.candidate md5 random_text).
Local Abbreviation exists_code := (AccessCode.exists_code st).
Local Abbreviation generate_access_code :=
(AccessCode.generate_access_code md5 random_text st).

Lemma hex_digit_upper n :
(n < 16)%N →
AccessCode.upper_alphanumeric (AccessCode.upper_char (AccessCode.hex_digit n))
= true.
Proof.
intros Hn.
assert (Hcases : Exists (eq n) (N.of_nat <$> seq 0 16)).
{ apply Exists_exists. exists n. split; [|done].
  apply list_elem_of_fmap. exists (N.to_nat n).
  split; [lia|]. apply elem_of_seq. lia. }
simpl in Hcases.
repeat (apply Exists_cons in Hcases as [->|Hcases]; [by vm_compute|]).
by apply Exists_nil in Hcases.
Qed.

Lemma candidate_format i :
String.length (candidate i) = 8%nat
∧ Forall (fun c => AccessCode.upper_alphanumeric c = true)
         (String.list_ascii_of_string (candidate i)).
Proof.
unfold AccessCode.candidate, AccessCode.md5_hex.
cbn [AccessCode.hex_digits String.substring AccessCode.upper String.length
     String.list_ascii_of_string].
split; [done|].
repeat constructor; apply hex_digit_upper, N.mod_upper_bound; lia.
Qed.

Lemma generate_returns_first fuel : ∀ k code,
generate_access_code fuel k = Some code →
∃ i, (k ≤ i < k + fuel)%nat ∧ code = candidate i
     ∧ exists_code (candidate i) = false
     ∧ ∀ i', (k ≤ i' < i)%nat → exists_code (candidate i') = true.
Proof.
induction fuel as [|fuel IH]; intros k code; simpl; [done|].
destruct (exists_code (candidate k)) eqn:Hk.
- intros (i & Hi & -> & Hfree & Hbefore)%IH.
  exists i. split; [lia|split; [done|split; [done|]]].
  intros i' Hi'. destruct (decide (i' = k)) as [->|]; [done|].
  apply Hbefore. lia.
- intros [= <-]. exists k. split; [lia|split; [done|split; [done|]]].
  intros i' ?. lia.
Qed.

Lemma generate_reaches_first fuel : ∀ k i,
(k ≤ i)%nat → (i - k < fuel)%nat →
exists_code (candidate i) = false →
(∀ i', (k ≤ i' < i)%nat → exists_code (candidate i') = true) →
generate_access_code fuel k = Some (candidate i).
Proof.
induction fuel as [|fuel IH]; intros k i Hk Hfuel Hfree Hbefore; [lia|].
simpl. destruct (decide (k = i)) as [->|Hne].
- by rewrite Hfree.
- rewrite Hbefore by lia. apply IH; [lia|lia|done|].
  intros i' Hi'. apply Hbefore. lia.
Qed.

Lemma first_free_turn d : ∀ k j,
(j - k = d)%nat → (k ≤ j)%nat →
exists_code (candidate j) = false →
∃ i, (k ≤ i ≤ j)%nat ∧ exists_code (candidate i) = false
     ∧ ∀ i', (k ≤ i' < i)%nat → exists_code (candidate i') = true.
Proof.
induction d as [|d IH]; intros k j Hd Hk Hfree.
- assert (j = k) as -> by lia. exists k. split; [lia|split; [done|]].
  intros i' ?. lia.
- destruct (exists_code (candidate k)) eqn:Hcode.
  + destruct (IH (S k) j) as (i & Hi & Hfi & Hbefore); [lia|lia|done|].
    exists i. split; [lia|split; [done|]].
    intros i' Hi'. destruct (decide (i' = k)) as [->|]; [done|].
    apply Hbefore. lia.
  + exists k. split; [lia|split; [done|]]. intros i' ?. lia.
Qed.

End GeneratorFacts.

(** C8.  From turn [k] of the loop on, as soon as some turn [j] draws a code
    that no exam has, [generate_access_code] returns: the code of the first
    such turn, after having retried on every colliding code before it.  Given
    turns enough it returns that code, and whatever number of turns it is
    given it returns no other.  The code is 8 characters long, each a digit or
    an uppercase letter, and it is the access code of no exam of the store. *)
Theorem access_code_is_fresh (md5 : string → N) (random_text : nat → string)
    (st : store) (k j : nat) :
  (k ≤ j)%nat →
  AccessCode.exists_code st (AccessCode.candidate md5 random_text j) = false →
  ∃ i code,
    (k ≤ i ≤ j)%nat
    ∧ code = AccessCode.candidate md5 random_text i
    ∧ (∀ i', (k ≤ i' < i)%nat →
         Exists (fun e => Exam.access_code e
                          = AccessCode.candidate md5 random_text i') (exams st))
    ∧ (∀ fuel, (i - k < fuel)%nat →
         AccessCode.generate_access_code md5 random_text st fuel k = Some code)
    ∧ (∀ fuel code',
         AccessCode.generate_access_code md5 random_text st fuel k = Some code' →
         code' = code)
    ∧ String.length code = 8%nat
    ∧ Forall (fun c => AccessCode.upper_alphanumeric c = true)
             (String.list_ascii_of_string code)
    ∧ ¬ Exists (fun e => Exam.access_code e = code) (exams st).
Proof.
  intros Hk Hfree.
  destruct (first_free_turn md5 random_text st (j - k) k j)
    as (i & Hi & Hfi & Hbefore); [done|done|done|].
  exists i, (AccessCode.candidate md5 random_text i).
  destruct (candidate_format md5 random_text i) as [Hlen Hchars].
  split; [done|]. split; [done|]. split; [|split; [|split; [|split; [done|split; [done|]]]]].
  - intros i' Hi'. specialize (Hbefore i' Hi').
    unfold AccessCode.exists_code in Hbefore. by apply bool_decide_eq_true in Hbefore.
  - intros fuel Hfuel. apply generate_reaches_first; [lia|done|done|done].
  - intros fuel code' Hgen.
    apply generate_returns_first in Hgen
      as (i2 & Hi2 & -> & Hfree2 & Hbefore2).
    destruct (lt_eq_lt_dec i i2) as [[Hlt| ->]|Hgt]; [|done|].
    + rewrite Hbefore2 in Hfi by lia. done.
    + rewrite Hbefore in Hfree2 by lia. done.
  - unfold AccessCode.exists_code in Hfi. by apply bool_decide_eq_false in Hfi.
Qed.

(** The scenario of the specification: an exam holds the code "ABCD1234", the
    first draw collides with it and the second is returned. *)
Example scenario_collision :
  Exam.access_code <$> exams Scenario.catalog = ["ABCD1234"]
  ∧ AccessCode.candidate Collision.md5 Collision.random_text 0 = "ABCD1234"
  ∧ AccessCode.generate_access_code Collision.md5 Collision.random_text
      Scenario.catalog 5 0 = Some "01234567".
Proof. by vm_compute. Qed.

(** C8 at the colliding draws: the second turn is free. *)
Lemma access_code_is_fresh_witness :
  AccessCode.exists_code Scenario.catalog
    (AccessCode.candidate Collision.md5 Collision.random_text 1) = false
  ∧ ∃ i code,
      (0 ≤ i ≤ 1)%nat
      ∧ code = AccessCode.candidate Collision.md5 Collision.random_text i
      ∧ (∀ i', (0 ≤ i' < i)%nat →
           Exists (fun e => Exam.access_code e
                            = AccessCode.candidate Collision.md5 Collision.random_text i')
                  (exams Scenario.catalog))
      ∧ (∀ fuel, (i - 0 < fuel)%nat →
           AccessCode.generate_access_code Collision.md5 Collision.random_text
             Scenario.catalog fuel 0 = Some code)
      ∧ (∀ fuel code',
           AccessCode.generate_access_code Collision.md5 Collision.random_text
             Scenario.catalog fuel 0 = Some code' →
           code' = code)
      ∧ String.length code = 8%nat
      ∧ Forall (fun c => AccessCode.upper_alphanumeric c = true)
               (String.list_ascii_of_string code)
      ∧ ¬ Exists (fun e => Exam.access_code e = code) (exams Scenario.catalog).
Proof.
  assert (H : AccessCode.exists_code Scenario.catalog
                (AccessCode.candidate Collision.md5 Collision.random_text 1) = false)
    by by vm_compute.
  split; [exact H|].
  refine (access_code_is_fresh Collision.md5 Collision.random_text
            Scenario.catalog 0 1 _ H).
  lia.
Defined.

(** * Further properties of the exam page *)

(** ** Loading *)

(** X1.  An exam that is not there, or is there but not active, cannot be
    loaded: [loadExam] ends in its catch branch and the store is as it was;
    no attempt is started. *)
Theorem loadExam_unavailable c e u now uuid st :
  ¬ Exists (fun x => Exam.id x = e ∧ Exam.status x = active) (exams st) →
  loadExam c (Some e) (Some u) now uuid st = (LoadError, st).
Proof.
  intros H. unfold loadExam, select_active_exam.
  by rewrite (filter_none _ _ H).
Qed.

(** X1 at the scenario's exam once it is inactive. *)
Lemma loadExam_unavailable_witness :
  ¬ Exists (fun x => Exam.id x = "e1" ∧ Exam.status x = active)
           (exams Deactivated.st)
  ∧ loadExam Client.initial (Some "e1") (Some "s2") 9000 "a9" Deactivated.st
    = (LoadError, Deactivated.st).
Proof.
  assert (H : ¬ Exists (fun x => Exam.id x = "e1" ∧ Exam.status x = active)
                       (exams Deactivated.st)).
  { apply (bool_decide_unpack _). by vm_compute. }
  split; [exact H|].
  exact (loadExam_unavailable Client.initial "e1" "s2" 9000 "a9" Deactivated.st H).
Defined.

(** X2.  [loadExam] never writes to [exams], [questions] or [answers] and
    never changes an attempt row that is there.  Unless it starts an attempt
    the store is as it was; when it does, the one row it adds has the id the
    store drew, which no row had, is open and has no marks. *)
Theorem loadExam_adds_at_most_one_attempt c examId user now uuid st :
  exams (loadExam c examId user now uuid st).2 = exams st
  ∧ questions (loadExam c examId user now uuid st).2 = questions st
  ∧ answers (loadExam c examId user now uuid st).2 = answers st
  ∧ (((loadExam c examId user now uuid st).2 = st
      ∧ ∀ c', (loadExam c examId user now uuid st).1 ≠ Started c')
     ∨ ∃ c' a,
         (loadExam c examId user now uuid st).1 = Started c'
         ∧ exam_attempts (loadExam c examId user now uuid st).2
           = exam_attempts st ++ [a]
         ∧ Attempt.id a = uuid
         ∧ ¬ (Attempt.id a ∈ Attempt.id <$> exam_attempts st)
         ∧ Some (Attempt.exam_id a) = examId
         ∧ Some (Attempt.student_id a) = user
         ∧ Attempt.started_at a = now
         ∧ Attempt.completed_at a = None
         ∧ Attempt.score a = None ∧ Attempt.total_points a = None).
Proof.
  unfold loadExam.
  destruct examId as [e|]; [|by split_and!; [..|left]].
  destruct user as [s|]; [|by split_and!; [..|left]].
  destruct (select_active_exam st e) as [examData|]; [|by split_and!; [..|left]].
  destruct (_ && _); [by split_and!; [..|left]|].
  destruct (List.find incomplete _); [by split_and!; [..|left]|].
  destruct (insert_attempt _ _ _ _ _ _) as [[a st']|] eqn:Hi;
    [|by split_and!; [..|left]].
  apply insert_attempt_Some in Hi as (Ha & He & Hq & Hans & Hatt & Hid & _).
  cbn [fst snd]. split_and!; try done.
  right. eexists _, a. split; [done|]. rewrite Ha. cbn.
  split_and!; try done.
  - by rewrite Hatt, Ha.
  - intros (b & Hb & Hin)%list_elem_of_fmap. apply Hid.
    apply Exists_exists. by exists b.
Qed.

Lemma loadExam_Resumed c examId user now uuid st c' st' :
  loadExam c examId user now uuid st = (Resumed c', st') →
  ∃ e s examData a,
    examId = Some e ∧ user = Some s ∧ st' = st
    ∧ select_active_exam st e = Some examData
    ∧ List.find incomplete (select_attempts st e s) = Some a
    ∧ c' = Client.mk
             (Some (mkExamData (exam_row examData)
                               (sort_by_order_index (exam_questions examData))))
             (answers_map (select_answers st (Attempt.id a)))
             (if truthy (Exam.time_limit (exam_row examData))
              then Some (Z.max 0 (to_number (Exam.time_limit (exam_row examData)) * 60
                                  - (now - Attempt.started_at a) / 1000))
              else Client.timeLeft c)
             (Some (Attempt.id a)).
Proof.
  unfold loadExam.
  destruct examId as [e|]; [|done]. destruct user as [s|]; [|done].
  destruct (select_active_exam st e) as [examData|] eqn:He; [|done].
  destruct (_ && _); [done|].
  destruct (List.find incomplete _) as [a|] eqn:Hf.
  - intros [= <- <-]. by eexists e, s, examData, a.
  - by destruct (insert_attempt _ _ _ _ _ _) as [[]|].
Qed.

Lemma find_incomplete_attempt st e s a :
  List.find incomplete (select_attempts st e s) = Some a →
  a ∈ attempts_of st e s ∧ incomplete a = true.
Proof.
  intros [Hin Hinc]%find_some. split; [|done].
  apply list_elem_of_In in Hin. unfold select_attempts in Hin.
  by rewrite elem_of_order_attempt_number_desc in Hin.
Qed.

(** X3.  When an attempt of an exam with a time limit of [L] minutes is taken
    up again, the time left is [L * 60] seconds less the whole seconds since
    the attempt was started, and never below zero; it is zero exactly when
    the limit has passed, and then the countdown effect submits the exam at
    once. *)
Theorem resumed_time_left c e u now uuid st c' st' examData L :
  loadExam c (Some e) (Some u) now uuid st = (Resumed c', st') →
  select_active_exam st e = Some examData →
  Exam.time_limit (exam_row examData) = Some L →
  L ≠ 0 →
  ∃ a t,
    a ∈ attempts_of st e u ∧ incomplete a = true
    ∧ Client.attemptId c' = Some (Attempt.id a)
    ∧ Client.timeLeft c' = Some t
    ∧ 0 ≤ t
    ∧ (0 < t → t = L * 60 - (now - Attempt.started_at a) / 1000)
    ∧ (t = 0 ↔ L * 60 ≤ (now - Attempt.started_at a) / 1000)
    ∧ (Attempt.started_at a ≤ now → 0 < L → t ≤ L * 60)
    ∧ (timer (Client.timeLeft c') = SubmitNow ↔ t = 0).
Proof.
  intros Hload He HL Hne.
  apply loadExam_Resumed in Hload
    as (e0 & s0 & examData0 & a & [= <-] & [= <-] & -> & He0 & Hfind & ->).
  rewrite He in He0. injection He0 as <-.
  apply find_incomplete_attempt in Hfind as [Hin Hinc].
  rewrite HL. cbn [truthy to_number default from_option id Client.timeLeft
                   Client.attemptId].
  rewrite bool_decide_false by done. cbn [negb].
  set (elapsed := (now - Attempt.started_at a) / 1000).
  exists a, (Z.max 0 (L * 60 - elapsed)).
  do 4 (split; [done|]). split; [lia|]. split; [lia|]. split; [lia|]. split.
  - intros Hstart HLpos.
    assert (0 ≤ elapsed) by (apply Z.div_pos; lia). lia.
  - unfold timer. repeat case_bool_decide; split; intros; try done; lia.
Qed.

(** X3 at the timed exam, ten minutes after the attempt was started: twenty
    minutes are left. *)
Lemma resumed_time_left_witness :
  ∃ c',
    loadExam Client.initial (Some "e2") (Some "s1") 601000 "b2" Timed.opened
      = (Resumed c', Timed.opened)
    ∧ Client.timeLeft c' = Some 1200
    ∧ ∃ a t,
        a ∈ attempts_of Timed.opened "e2" "s1" ∧ incomplete a = true
        ∧ Client.attemptId c' = Some (Attempt.id a)
        ∧ Client.timeLeft c' = Some t
        ∧ 0 ≤ t
        ∧ (0 < t → t = 30 * 60 - (601000 - Attempt.started_at a) / 1000)
        ∧ (t = 0 ↔ 30 * 60 ≤ (601000 - Attempt.started_at a) / 1000)
        ∧ (Attempt.started_at a ≤ 601000 → 0 < 30 → t ≤ 30 * 60)
        ∧ (timer (Client.timeLeft c') = SubmitNow ↔ t = 0).
Proof.
  eexists. split; [by vm_compute|]. split; [by vm_compute|].
  eapply (resumed_time_left Client.initial "e2" "s1" 601000 "b2" Timed.opened
            _ Timed.opened (mkExamData Timed.e2 [Timed.q4]) 30).
  - by vm_compute.
  - by vm_compute.
  - done.
  - done.
Defined.

Lemma elapse_counts ticks : ∀ t,
  Z.of_nat ticks ≤ t → elapse ticks (Some t) = Some (t - Z.of_nat ticks).
Proof.
  induction ticks as [|k IH]; intros t Ht; simpl elapse.
  - f_equal. lia.
  - unfold timer. rewrite bool_decide_true by lia.
    rewrite IH by lia. f_equal. lia.
Qed.

(** X4.  A countdown that stands at [t] seconds submits the exam after
    exactly [t] ticks: before that every run of the effect arms the next
    tick, at the [t]-th tick [timeLeft] is zero and the effect submits. *)
Theorem countdown_submits_at_zero t :
  0 ≤ t →
  elapse (Z.to_nat t) (Some t) = Some 0
  ∧ timer (elapse (Z.to_nat t) (Some t)) = SubmitNow
  ∧ ∀ k, (k < Z.to_nat t)%nat →
      timer (elapse k (Some t)) = Countdown (t - Z.of_nat k - 1).
Proof.
  intros Ht.
  assert (H0 : elapse (Z.to_nat t) (Some t) = Some 0).
  { rewrite elapse_counts by lia. f_equal. lia. }
  split; [done|]. split; [by rewrite H0|].
  intros k Hk. rewrite elapse_counts by lia.
  unfold timer. by rewrite bool_decide_true by lia.
Qed.

(** X4 at three seconds. *)
Lemma countdown_submits_at_zero_witness :
  elapse 3 (Some 3) = Some 0
  ∧ timer (elapse 3 (Some 3)) = SubmitNow
  ∧ ∀ k, (k < 3)%nat → timer (elapse k (Some 3)) = Countdown (3 - Z.of_nat k - 1).
Proof.
  apply (countdown_submits_at_zero 3). lia.
Defined.
(** ** What each operation does to the tables *)

Lemma select_active_exam_Some st e examData :
  select_active_exam st e = Some examData →
  exam_row examData ∈ exams st
  ∧ Exam.id (exam_row examData) = e ∧ Exam.status (exam_row examData) = active
  ∧ exam_questions examData
    = filter (fun q => Question.exam_id q = e) (questions st).
Proof.
  unfold select_active_exam.
  destruct (filter _ (exams st)) as [|x [|y l]] eqn:Hf; simpl; try done.
  intros [= <-]. simpl.
  assert (Hx : x ∈ filter (fun e0 => Exam.id e0 = e ∧ Exam.status e0 = active)
                          (exams st)) by (rewrite Hf; apply list_elem_of_here).
  apply list_elem_of_filter in Hx as [[? ?] ?]. done.
Qed.

Lemma find_incomplete_none st e s :
  List.find incomplete (select_attempts st e s) = None →
  Forall (fun a => incomplete a = false) (attempts_of st e s).
Proof.
  intros Hf. apply Forall_forall. intros a Hin.
  rewrite <- elem_of_order_attempt_number_desc in Hin.
  apply list_elem_of_In in Hin.
  pose proof (find_none _ _ Hf a Hin) as H. by destruct (incomplete a).
Qed.

(** [loadExam], seen from the store. *)
Lemma loadExam_effect c examId user now uuid st :
  ((loadExam c examId user now uuid st).2 = st
   ∧ ∀ c', (loadExam c examId user now uuid st).1 ≠ Started c')
  ∨ ∃ e s c' a,
      examId = Some e ∧ user = Some s
      ∧ loadExam c examId user now uuid st
        = (Started c', mkStore (exams st) (questions st)
                               (exam_attempts st ++ [a]) (answers st))
      ∧ a = Attempt.mk uuid e s now None None None
                       (Z.of_nat (length (attempts_of st e s)) + 1)
      ∧ ¬ Exists (fun b => Attempt.id b = uuid) (exam_attempts st)
      ∧ Exists (fun x => Exam.id x = e ∧ Exam.status x = active) (exams st)
      ∧ Forall (fun b => incomplete b = false) (attempts_of st e s).
Proof.
  unfold loadExam.
  destruct examId as [e|]; [|by left]. destruct user as [s|]; [|by left].
  destruct (select_active_exam st e) as [examData|] eqn:He; [|by left].
  destruct (_ && _); [by left|].
  destruct (List.find incomplete _) eqn:Hfind; [by left|].
  destruct (insert_attempt _ _ _ _ _ _) as [[a st']|] eqn:Hi; [|by left].
  right. apply insert_attempt_Some in Hi as (Ha & Hes & Hq & Hans & Hatt & Hid & _).
  apply select_active_exam_Some in He as (Hin & Heid & Hact & _).
  eexists e, s, _, a. split_and!; try done.
  - destruct st'; simpl in *. by subst.
  - by rewrite Ha, length_select_attempts.
  - apply Exists_exists. by exists (exam_row examData).
  - by apply find_incomplete_none.
Qed.

(** [saveAnswer], seen from the store. *)
Lemma saveAnswer_effect target c uuid q v st :
  exams (saveAnswer target c uuid q v st) = exams st
  ∧ questions (saveAnswer target c uuid q v st) = questions st
  ∧ exam_attempts (saveAnswer target c uuid q v st) = exam_attempts st
  ∧ (saveAnswer target c uuid q v st = st
     ∨ ∃ aid,
         Client.attemptId c = Some aid
         ∧ Exists (fun a => Attempt.id a = aid) (exam_attempts st)
         ∧ Exists (fun x => Question.id x = q) (questions st)
         ∧ ((target = OnAttemptQuestion
             ∧ Exists (same_answer aid q) (answers st)
             ∧ answers (saveAnswer target c uuid q v st)
               = overwrite_value aid q v <$> answers st)
            ∨ (¬ Exists (same_answer aid q) (answers st)
               ∧ ¬ Exists (fun r => Answer.id r = uuid) (answers st)
               ∧ answers (saveAnswer target c uuid q v st)
                 = answers st ++ [Answer.mk uuid aid q v None (Some 0)]))).
Proof.
  unfold saveAnswer. destruct (Client.attemptId c) as [aid|]; [|by split_and!; [..|left]].
  unfold upsert_answer.
  destruct (decide (Exists (fun a => Attempt.id a = aid) (exam_attempts st))) as [Ha|Ha];
    [rewrite (bool_decide_true _ Ha)|rewrite (bool_decide_false _ Ha)];
    simpl; [|by split_and!; [..|left]].
  destruct (decide (Exists (fun x => Question.id x = q) (questions st))) as [Hq|Hq];
    [rewrite (bool_decide_true _ Hq)|rewrite (bool_decide_false _ Hq)];
    simpl; [|by split_and!; [..|left]].
  destruct (decide (Exists (same_answer aid q) (answers st))) as [Hs|Hs];
    [rewrite (bool_decide_true _ Hs)|rewrite (bool_decide_false _ Hs)].
  - destruct target; simpl; [by split_and!; [..|left]|].
    split_and!; try done. right. exists aid. split_and!; try done. by left.
  - destruct (decide (Exists (fun r => Answer.id r = uuid) (answers st))) as [Hi|Hi];
      [rewrite (bool_decide_true _ Hi)|rewrite (bool_decide_false _ Hi)];
      simpl; [by split_and!; [..|left]|].
    split_and!; try done. right. exists aid. split_and!; try done. by right.
Qed.

(** [handleSubmitExam], seen from the store: it either returns at once, or
    grades the rows and completes the attempt when both sums fit their
    columns, or grades the rows and fails to complete the attempt. *)
Lemma handleSubmitExam_effect c now st :
  same_catalog st (handleSubmitExam c now st).2
  ∧ (((handleSubmitExam c now st).1 = SubmitSkipped
      ∧ (handleSubmitExam c now st).2 = st
      ∧ (Client.attemptId c = None ∨ Client.exam c = None))
     ∨ ∃ aid exam,
         Client.attemptId c = Some aid ∧ Client.exam c = Some exam
         ∧ answers (handleSubmitExam c now st).2
           = regrade aid (Client.answers c) st (exam_questions exam) <$> answers st
         ∧ (((handleSubmitExam c now st).1 = Submitted
             ∧ decimal_5_2 (sum_Z (earned st (Client.answers c) (exam_questions exam)))
               = true
             ∧ decimal_5_2 (sum_Z (Question.points <$> exam_questions exam)) = true
             ∧ exam_attempts (handleSubmitExam c now st).2
               = complete_row aid now
                   (sum_Z (earned st (Client.answers c) (exam_questions exam)))
                   (sum_Z (Question.points <$> exam_questions exam))
                 <$> exam_attempts st)
            ∨ ((handleSubmitExam c now st).1 = SubmitError
               ∧ decimal_5_2
                   (sum_Z (earned st (Client.answers c) (exam_questions exam)))
                 && decimal_5_2 (sum_Z (Question.points <$> exam_questions exam))
                 = false
               ∧ exam_attempts (handleSubmitExam c now st).2 = exam_attempts st))).
Proof.
  destruct (Client.attemptId c) as [aid|] eqn:Ha;
    [|unfold handleSubmitExam; rewrite Ha; split; [done|left; auto]].
  destruct (Client.exam c) as [exam|] eqn:He;
    [|unfold handleSubmitExam; rewrite Ha, He; split; [done|left; auto]].
  rewrite (handleSubmitExam_unfold c now st aid exam Ha He).
  destruct (grade_all_frame aid (Client.answers c) st (exam_questions exam) st)
    as (Hex & Hqs & Hatt).
  fold (grade_all aid (Client.answers c) st (exam_questions exam)) in Hex, Hqs, Hatt.
  unfold complete_attempt.
  destruct (decimal_5_2 _ && decimal_5_2 _) eqn:Hfit; cbn [fst snd].
  - split; [done|]. right. exists aid, exam. split_and!; try done.
    { cbn [answers]. apply grade_all_answers. }
    left. apply andb_true_iff in Hfit as [? ?]. cbn [exam_attempts].
    by rewrite Hatt.
  - split; [done|]. right. exists aid, exam. split_and!; try done.
    { apply grade_all_answers. }
    right. done.
Qed.

Lemma fmap_preserved {A B} (key : A → B) (f : A → A) (l : list A) :
  (∀ x, key (f x) = key x) → key <$> (f <$> l) = key <$> l.
Proof.
  intros H. rewrite <- list_fmap_compose. apply list_fmap_ext. intros i x _. apply H.
Qed.

Lemma Exists_fmap_preserved {A B} (key : A → B) (f : A → A) (l : list A) (k : B) :
  (∀ x, key (f x) = key x) →
  Exists (fun x => key x = k) (f <$> l) ↔ Exists (fun x => key x = k) l.
Proof.
  intros H. rewrite Exists_fmap.
  split; intros Hex; (eapply Exists_impl; [exact Hex|]); intros x; simpl;
    by rewrite H.
Qed.

Lemma regrade_keys aid held st0 qs r :
  Answer.id (regrade aid held st0 qs r) = Answer.id r
  ∧ answer_key (regrade aid held st0 qs r) = answer_key r
  ∧ Answer.answer_value (regrade aid held st0 qs r) = Answer.answer_value r.
Proof.
  destruct (regrade_same_submission aid held st0 qs r) as (Hi & Ha & Hq & Hv).
  unfold answer_key. by rewrite Hi, Ha, Hq, Hv.
Qed.

Lemma overwrite_value_keys aid q v r :
  Answer.id (overwrite_value aid q v r) = Answer.id r
  ∧ answer_key (overwrite_value aid q v r) = answer_key r.
Proof. unfold overwrite_value, answer_key. by case_bool_decide. Qed.

Lemma complete_row_id aid now s t a :
  Attempt.id (complete_row aid now s t a) = Attempt.id a.
Proof. unfold complete_row. by case_bool_decide. Qed.
(** ** What every history keeps *)

Lemma NoDup_snoc_fresh {A} (l : list A) (x : A) :
  NoDup l → x ∉ l → NoDup (l ++ [x]).
Proof.
  intros Hl Hx. apply NoDup_app. split; [done|]. split; [|apply NoDup_singleton].
  intros y Hy ->%list_elem_of_singleton. done.
Qed.

Lemma NoDup_fmap_filter {A B} (key : A → B) (P : A → Prop)
    `{!∀ x, Decision (P x)} (l : list A) :
  NoDup (key <$> l) → NoDup (key <$> filter P l).
Proof.
  intros Hnd. eapply sublist_NoDup; [exact Hnd|].
  apply fmap_sublist, sublist_filter.
Qed.

Lemma not_Exists_key {A B} (key : A → B) (l : list A) (k : B) :
  ¬ Exists (fun x => key x = k) l → k ∉ (key <$> l).
Proof.
  intros H (x & -> & Hx)%list_elem_of_fmap. apply H.
  apply Exists_exists. by exists x.
Qed.

(** One operation keeps the answer rows distinct by (attempt, question) pair
    and by id, and the attempt rows distinct by id. *)
Lemma perform_keeps_rows_distinct st act :
  NoDup (answer_key <$> answers st) → NoDup (Answer.id <$> answers st) →
  NoDup (Attempt.id <$> exam_attempts st) →
  NoDup (answer_key <$> answers (perform st act))
  ∧ NoDup (Answer.id <$> answers (perform st act))
  ∧ NoDup (Attempt.id <$> exam_attempts (perform st act)).
Proof.
  intros Hkey Hid Hatt.
  destruct act as [c e u now uuid|target c uuid q v|c now|es qs]; cbn [perform].
  - destruct (loadExam_effect c e u now uuid st)
      as [[-> _]|(e1 & s1 & c' & a & _ & _ & -> & Ha & Hfresh & _)]; [done|].
    cbn [snd answers exam_attempts]. split_and!; try done.
    rewrite fmap_app. apply NoDup_snoc_fresh; [done|].
    rewrite Ha. cbn. by apply not_Exists_key.
  - destruct (saveAnswer_effect target c uuid q v st)
      as (_ & _ & Hsame & [->|(aid & _ & _ & _ & [(_ & _ & Hs)|(Hk & Hi & Hs)])]);
      [done|..]; rewrite Hsame, Hs.
    + rewrite !fmap_preserved by apply overwrite_value_keys. done.
    + rewrite !fmap_app. split_and!; [| |done].
      * apply NoDup_snoc_fresh; [done|].
        intros (r & Hr & Hin)%list_elem_of_fmap. apply Hk.
        apply Exists_exists. exists r. split; [done|].
        unfold answer_key in Hr. cbn in Hr. injection Hr as -> ->. done.
      * apply NoDup_snoc_fresh; [done|]. cbn. by apply not_Exists_key.
  - destruct (handleSubmitExam_effect c now st)
      as (_ & [(_ & -> & _)|(aid & exam & _ & _ & -> & Hc)]); [done|].
    rewrite !fmap_preserved by apply regrade_keys.
    split_and!; try done.
    destruct Hc as [(_ & _ & _ & ->)|(_ & _ & ->)]; [|done].
    by rewrite fmap_preserved by apply complete_row_id.
  - unfold author. cbn [answers exam_attempts].
    split_and!; by apply NoDup_fmap_filter.
Qed.

Lemma reachable_rows_distinct history :
  NoDup (answer_key <$> answers (run empty_store history))
  ∧ NoDup (Answer.id <$> answers (run empty_store history))
  ∧ NoDup (Attempt.id <$> exam_attempts (run empty_store history)).
Proof.
  induction history as [|act history IH] using rev_ind.
  { split_and!; constructor. }
  rewrite run_snoc. destruct IH as (Hkey & Hid & Hatt).
  by apply perform_keeps_rows_distinct.
Qed.

(** X5.  In every store a history reaches no two answer rows share an
    (attempt, question) pair, no two share an id, and no two attempt rows
    share an id, whichever way the upsert resolves its conflicts: a save of a
    question that has a row never adds a second row for it.  The same holds
    from any store that has the three properties. *)
Theorem stored_rows_are_unique history :
  (∀ st,
     NoDup (answer_key <$> answers st) → NoDup (Answer.id <$> answers st) →
     NoDup (Attempt.id <$> exam_attempts st) →
     NoDup (answer_key <$> answers (run st history))
     ∧ NoDup (Answer.id <$> answers (run st history))
     ∧ NoDup (Attempt.id <$> exam_attempts (run st history)))
  ∧ NoDup (answer_key <$> answers (run empty_store history))
  ∧ NoDup (Answer.id <$> answers (run empty_store history))
  ∧ NoDup (Attempt.id <$> exam_attempts (run empty_store history)).
Proof.
  split; [|apply reachable_rows_distinct].
  induction history as [|act history IH] using rev_ind; intros st Hkey Hid Hatt.
  { done. }
  rewrite run_snoc. destruct (IH st Hkey Hid Hatt) as (Hkey' & Hid' & Hatt').
  by apply perform_keeps_rows_distinct.
Qed.

(** X6.  In every store a history reaches each answer row belongs to an
    attempt and to a question that are there, and each attempt row to an exam
    that is there: no operation leaves a dangling row behind. *)
Theorem stored_rows_refer_to_rows history :
  (∀ r, r ∈ answers (run empty_store history) →
     Exists (fun a => Attempt.id a = Answer.attempt_id r)
            (exam_attempts (run empty_store history))
     ∧ Exists (fun q => Question.id q = Answer.question_id r)
              (questions (run empty_store history)))
  ∧ (∀ a, a ∈ exam_attempts (run empty_store history) →
       Exists (fun e => Exam.id e = Attempt.exam_id a)
              (exams (run empty_store history))).
Proof.
  induction history as [|act history IH] using rev_ind.
  { split; intros x Hx; by apply elem_of_nil in Hx. }
  rewrite run_snoc. set (st := run empty_store history) in *.
  destruct IH as (Hans & Hatt).
  destruct act as [c e u now uuid|target c uuid q v|c now|es qs]; cbn [perform].
  - destruct (loadExam_effect c e u now uuid st)
      as [[-> _]|(e1 & s1 & c' & a & _ & _ & -> & Ha & _ & Hexam & _)]; [done|].
    cbn [snd answers exam_attempts exams questions]. split.
    + intros r Hr. destruct (Hans r Hr) as [H1 H2]. split; [|done].
      apply Exists_app. by left.
    + intros b [Hb|Hb]%elem_of_app; [by apply Hatt|].
      apply list_elem_of_singleton in Hb as ->. rewrite Ha. cbn.
      eapply Exists_impl; [exact Hexam|]. by intros x [? _].
  - destruct (saveAnswer_effect target c uuid q v st)
      as (Hex & Hqs & Hsame & [->|(aid & _ & Ha & Hq & [(_ & _ & Hs)|(_ & _ & Hs)])]);
      [done|..]; rewrite Hex, Hqs, Hsame, Hs; (split; [|done]).
    + intros r (r0 & -> & Hr0)%list_elem_of_fmap.
      destruct (Hans r0 Hr0) as [H1 H2].
      pose proof (overwrite_value_keys aid q v r0) as [_ Hk].
      unfold answer_key in Hk. injection Hk as -> ->. done.
    + intros r [Hr|Hr]%elem_of_app; [by apply Hans|].
      apply list_elem_of_singleton in Hr as ->. done.
  - destruct (handleSubmitExam_effect c now st)
      as ([Hex Hqs] & [(_ & -> & _)|(aid & exam & _ & _ & Hs & Hc)]); [done|].
    rewrite Hex, Hqs, Hs.
    assert (Hids : ∀ i, Exists (fun a => Attempt.id a = i) (exam_attempts st) →
              Exists (fun a => Attempt.id a = i)
                     (exam_attempts (handleSubmitExam c now st).2)).
    { intros i Hi. destruct Hc as [(_ & _ & _ & ->)|(_ & _ & ->)]; [|done].
      by apply (Exists_fmap_preserved Attempt.id); [apply complete_row_id|]. }
    split.
    + intros r (r0 & -> & Hr0)%list_elem_of_fmap.
      destruct (Hans r0 Hr0) as [H1 H2].
      pose proof (regrade_keys aid (Client.answers c) st (exam_questions exam) r0)
        as (_ & Hk & _).
      unfold answer_key in Hk. injection Hk as -> ->. split; [|done].
      by apply Hids.
    + destruct Hc as [(_ & _ & _ & ->)|(_ & _ & ->)]; [|done].
      intros a (a0 & -> & Ha0)%list_elem_of_fmap.
      pose proof (complete_row_triple aid now
                    (sum_Z (earned st (Client.answers c) (exam_questions exam)))
                    (sum_Z (Question.points <$> exam_questions exam)) a0) as Ht.
      unfold triple in Ht. injection Ht as -> _ _. by apply Hatt.
  - unfold author. cbn [answers exam_attempts exams questions]. split.
    + intros r [Hr _]%list_elem_of_filter. done.
    + intros a [Ha _]%list_elem_of_filter. done.
Qed.

Lemma attempts_of_complete_row aid now s t (l : list Attempt.t) e u :
  filter (fun a => Attempt.exam_id a = e ∧ Attempt.student_id a = u)
         (complete_row aid now s t <$> l)
  = complete_row aid now s t
    <$> filter (fun a => Attempt.exam_id a = e ∧ Attempt.student_id a = u) l.
Proof.
  induction l as [|a l IH]; [done|].
  rewrite fmap_cons, !filter_cons.
  pose proof (complete_row_triple aid now s t a) as Ht.
  unfold triple in Ht. injection Ht as He Hs _.
  rewrite He, Hs. case_decide; [|done].
  by rewrite fmap_cons, IH.
Qed.

Lemma complete_row_completed aid now s t a :
  incomplete a = false → incomplete (complete_row aid now s t a) = false.
Proof. unfold complete_row. by case_bool_decide. Qed.

(** X7.  In every store a history reaches, of the attempts a student has for
    an exam only the last one created can be open: an attempt is started only
    when every earlier one of the pair is completed, so that a student never
    has two open attempts for one exam. *)
Theorem only_the_last_attempt_is_open history e u l a :
  attempts_of (run empty_store history) e u = l ++ [a] →
  Forall (fun b => incomplete b = false) l.
Proof.
  revert l a. induction history as [|act history IH] using rev_ind; intros l a.
  { intros H. by destruct l. }
  rewrite run_snoc. set (st := run empty_store history) in *.
  destruct act as [c e0 u0 now uuid|target c uuid q v|c now|es qs]; cbn [perform].
  - destruct (loadExam_effect c e0 u0 now uuid st)
      as [[-> _]|(e1 & s1 & c' & b & _ & _ & -> & Hb & _ & _ & Hdone)]; [apply IH|].
    unfold attempts_of. cbn [snd exam_attempts].
    rewrite filter_app, filter_cons, filter_nil.
    case_decide as Hpair; cbv beta in Hpair.
    + rewrite Hb in Hpair. cbn in Hpair. destruct Hpair as [-> ->].
      intros [<- _]%app_inj_tail. exact Hdone.
    + rewrite app_nil_r. apply IH.
  - unfold attempts_of.
    rewrite (proj1 (proj2 (proj2 (saveAnswer_effect target c uuid q v st)))).
    apply IH.
  - unfold attempts_of.
    destruct (handleSubmitExam_effect c now st)
      as (_ & [(_ & -> & _)|(aid & exam & _ & _ & _ & [(_ & _ & _ & ->)|(_ & _ & ->)])]);
      [apply IH| |apply IH].
    rewrite attempts_of_complete_row. intros Hl.
    destruct (filter _ (exam_attempts st)) as [|x l0] eqn:Hf using rev_ind.
    { by destruct l. }
    clear IHl0. rewrite fmap_app in Hl. cbn in Hl.
    apply app_inj_tail in Hl as [<- _].
    apply Forall_fmap. eapply Forall_impl; [exact (IH _ _ Hf)|].
    intros b Hb. by apply complete_row_completed.
  - unfold attempts_of, author. cbn [exam_attempts].
    pose proof (filter_cascade (fun x => Exists (fun e1 => Exam.id e1 = x) es)
                  (exam_attempts st) e u) as Hc.
    cbv beta in Hc. rewrite Hc. case_decide; [apply IH|].
    intros Hnil. by destruct l.
Qed.

(** X7 at the timed exam taken twice: the first attempt is completed, the
    second one is open. *)
Lemma only_the_last_attempt_is_open_witness :
  attempts_of (run empty_store Retaken.history) "e2" "s1"
    = [Attempt.mk "b1" "e2" "s1" 1000 (Some 5000) (Some 150) (Some 150) 1]
      ++ [Attempt.mk "b2" "e2" "s1" 9000 None None None 2]
  ∧ Forall (fun b => incomplete b = false)
           [Attempt.mk "b1" "e2" "s1" 1000 (Some 5000) (Some 150) (Some 150) 1].
Proof.
  assert (H : attempts_of (run empty_store Retaken.history) "e2" "s1"
              = [Attempt.mk "b1" "e2" "s1" 1000 (Some 5000) (Some 150) (Some 150) 1]
                ++ [Attempt.mk "b2" "e2" "s1" 9000 None None None 2]) by by vm_compute.
  split; [exact H|].
  exact (only_the_last_attempt_is_open _ "e2" "s1" _ _ H).
Defined.

Lemma complete_row_settled aid now s t a :
  decimal_5_2 s = true → decimal_5_2 t = true →
  settled a → settled (complete_row aid now s t a).
Proof.
  intros Hs Ht Ha. unfold complete_row. case_bool_decide; [|done].
  right. by exists now, s, t.
Qed.

(** X8.  In every store a history reaches an attempt row has either none of
    [completed_at], [score] and [total_points] or all three, and a score and
    a total that are there fit their [DECIMAL(5,2)] columns. *)
Theorem attempts_are_settled history a :
  a ∈ exam_attempts (run empty_store history) → settled a.
Proof.
  revert a. induction history as [|act history IH] using rev_ind; intros a.
  { intros H. by apply elem_of_nil in H. }
  rewrite run_snoc. set (st := run empty_store history) in *.
  destruct act as [c e0 u0 now uuid|target c uuid q v|c now|es qs]; cbn [perform].
  - destruct (loadExam_effect c e0 u0 now uuid st)
      as [[-> _]|(e1 & s1 & c' & b & _ & _ & -> & Hb & _)]; [apply IH|].
    cbn [snd exam_attempts]. intros [Ha|Ha]%elem_of_app; [by apply IH|].
    apply list_elem_of_singleton in Ha as ->. rewrite Hb. by left.
  - rewrite (proj1 (proj2 (proj2 (saveAnswer_effect target c uuid q v st)))).
    apply IH.
  - destruct (handleSubmitExam_effect c now st)
      as (_ & [(_ & -> & _)|(aid & exam & _ & _ & _
                             & [(_ & Hs & Ht & ->)|(_ & _ & ->)])]);
      [apply IH| |apply IH].
    intros (a0 & -> & Ha0)%list_elem_of_fmap.
    apply complete_row_settled; [done|done|by apply IH].
  - unfold author. cbn [exam_attempts].
    intros [_ Ha]%list_elem_of_filter. by apply IH.
Qed.

(** X8 at the scenario's attempt before and after the submission. *)
Lemma attempts_are_settled_witness :
  Attempt.mk "a1" "e1" "s1" 1000 (Some 5000) (Some 200) (Some 500) 1
    ∈ exam_attempts
        (run empty_store (SavedAnswer.history ++ [Submit Scenario.written.1 5000]))
  ∧ settled (Attempt.mk "a1" "e1" "s1" 1000 (Some 5000) (Some 200) (Some 500) 1).
Proof.
  assert (H : Attempt.mk "a1" "e1" "s1" 1000 (Some 5000) (Some 200) (Some 500) 1
              ∈ exam_attempts
                  (run empty_store
                       (SavedAnswer.history ++ [Submit Scenario.written.1 5000]))).
  { change (exam_attempts _)
      with [Attempt.mk "a1" "e1" "s1" 1000 (Some 5000) (Some 200) (Some 500) 1].
    apply list_elem_of_here. }
  split; [exact H|].
  exact (attempts_are_settled _ _ H).
Defined.

(** X9.  No operation of the exam page or of the teacher's pages opens a
    completed attempt again: once every row of an id is completed, it stays
    so through any history that does not draw that id for a new attempt. *)
Theorem completed_attempt_stays_completed i history : ∀ st,
  Forall (draws_other i) history →
  (∀ a, a ∈ exam_attempts st → Attempt.id a = i → incomplete a = false) →
  ∀ a, a ∈ exam_attempts (run st history) → Attempt.id a = i →
       incomplete a = false.
Proof.
  induction history as [|act history IH]; intros st Hdraw Hst; [done|].
  apply Forall_cons in Hdraw as [Hact Hdraw].
  cbn [run foldl]. apply (IH (perform st act) Hdraw).
  clear IH Hdraw history.
  destruct act as [c e0 u0 now uuid|target c uuid q v|c now|es qs]; cbn [perform].
  - destruct (loadExam_effect c e0 u0 now uuid st)
      as [[-> _]|(e1 & s1 & c' & b & _ & _ & -> & Hb & _)]; [done|].
    cbn [snd exam_attempts]. intros a [Ha|Ha]%elem_of_app; [by apply Hst|].
    apply list_elem_of_singleton in Ha as ->. rewrite Hb. cbn. intros ->.
    by destruct Hact.
  - by rewrite (proj1 (proj2 (proj2 (saveAnswer_effect target c uuid q v st)))).
  - destruct (handleSubmitExam_effect c now st)
      as (_ & [(_ & -> & _)|(aid & exam & _ & _ & _
                             & [(_ & _ & _ & ->)|(_ & _ & ->)])]);
      [done| |done].
    intros a (a0 & -> & Ha0)%list_elem_of_fmap. rewrite complete_row_id.
    intros Hi. apply complete_row_completed. by apply Hst.
  - unfold author. cbn [exam_attempts].
    intros a [_ Ha]%list_elem_of_filter. by apply Hst.
Qed.

(** X9 at the scenario's completed attempt, which a later reload and a later
    change of answer leave completed. *)
Lemma completed_attempt_stays_completed_witness :
  Forall (draws_other "a1")
         [Load Client.initial (Some "e1") (Some "s1") 7000 "a2";
          Save OnAttemptQuestion Scenario.written.1 "r9" "q1" (JNum 0)]
  ∧ ∀ a, a ∈ exam_attempts
               (run Scenario.submitted.2
                    [Load Client.initial (Some "e1") (Some "s1") 7000 "a2";
                     Save OnAttemptQuestion Scenario.written.1 "r9" "q1" (JNum 0)]) →
         Attempt.id a = "a1" → incomplete a = false.
Proof.
  assert (H : Forall (draws_other "a1")
                [Load Client.initial (Some "e1") (Some "s1") 7000 "a2";
                 Save OnAttemptQuestion Scenario.written.1 "r9" "q1" (JNum 0)]).
  { repeat constructor. simpl. done. }
  split; [exact H|].
  apply (completed_attempt_stays_completed "a1" _ Scenario.submitted.2 H).
  change (exam_attempts Scenario.submitted.2)
    with [Attempt.mk "a1" "e1" "s1" 1000 (Some 5000) (Some 200) (Some 500) 1].
  intros a ->%list_elem_of_singleton _. done.
Defined.
(** ** Submitting *)

(** X10.  [handleSubmitExam] never writes to [exams] or [questions], adds or
    removes no row of [answers] or [exam_attempts], never changes the id, the
    pair or the submitted value of an answer row, nor the id, the exam, the
    student, the number or the start of an attempt row, and leaves every row
    of another attempt exactly as it was. *)
Theorem handleSubmitExam_touches_only_its_attempt c now st :
  exams (handleSubmitExam c now st).2 = exams st
  ∧ questions (handleSubmitExam c now st).2 = questions st
  ∧ Forall2 (fun r r' =>
               same_submission r' r
               ∧ (Some (Answer.attempt_id r) ≠ Client.attemptId c → r' = r))
            (answers st) (answers (handleSubmitExam c now st).2)
  ∧ Forall2 (fun a a' =>
               Attempt.id a' = Attempt.id a ∧ triple a' = triple a
               ∧ Attempt.started_at a' = Attempt.started_at a
               ∧ (Some (Attempt.id a) ≠ Client.attemptId c → a' = a))
            (exam_attempts st) (exam_attempts (handleSubmitExam c now st).2).
Proof.
  destruct (handleSubmitExam_effect c now st)
    as ([Hex Hqs] & [(_ & -> & _)|(aid & exam & Ha & _ & -> & Hc)]).
  { split_and!; try done; apply Forall_Forall2_diag, Forall_forall; by intros. }
  split_and!; try done.
  - apply Forall2_fmap_r, Forall_Forall2_diag, Forall_forall. intros r _.
    unfold compose. cbv beta.
    split; [apply regrade_same_submission|].
    intros Hne. apply regrade_other_attempt. congruence.
  - assert (Hsame : Forall2 (fun a a' =>
               Attempt.id a' = Attempt.id a ∧ triple a' = triple a
               ∧ Attempt.started_at a' = Attempt.started_at a
               ∧ (Some (Attempt.id a) ≠ Client.attemptId c → a' = a))
            (exam_attempts st) (exam_attempts st)).
    { apply Forall_Forall2_diag, Forall_forall. by intros. }
    destruct Hc as [(_ & _ & _ & ->)|(_ & _ & ->)]; [|done].
    apply Forall2_fmap_r, Forall_Forall2_diag, Forall_forall. intros a _.
    unfold compose, complete_row, triple. cbv beta.
    destruct (decide (Attempt.id a = aid)) as [Hid|Hid].
    + rewrite !bool_decide_true by done. split_and!; try done.
      intros Hne. congruence.
    + by rewrite !bool_decide_false by done.
Qed.

(** X11.  The grading reads the answers the page holds, not the rows of
    [answers]: two stores with the same exams, questions and attempts give
    the same outcome and the same attempt rows, whatever answers they hold. *)
Theorem grading_reads_the_page_not_the_rows c now st1 st2 :
  same_catalog st1 st2 →
  exam_attempts st2 = exam_attempts st1 →
  (handleSubmitExam c now st2).1 = (handleSubmitExam c now st1).1
  ∧ exam_attempts (handleSubmitExam c now st2).2
    = exam_attempts (handleSubmitExam c now st1).2.
Proof.
  intros Hcat Hatt.
  destruct (Client.attemptId c) as [aid|] eqn:Ha;
    [|unfold handleSubmitExam; by rewrite Ha].
  destruct (Client.exam c) as [exam|] eqn:He;
    [|unfold handleSubmitExam; by rewrite Ha, He].
  rewrite !(handleSubmitExam_unfold c now _ aid exam Ha He).
  rewrite (earned_questions st1 st2) by done.
  destruct (grade_all_frame aid (Client.answers c) st1 (exam_questions exam) st1)
    as (_ & _ & H1).
  destruct (grade_all_frame aid (Client.answers c) st2 (exam_questions exam) st2)
    as (_ & _ & H2).
  fold (grade_all aid (Client.answers c) st1 (exam_questions exam)) in H1.
  fold (grade_all aid (Client.answers c) st2 (exam_questions exam)) in H2.
  unfold complete_attempt. destruct (_ && _); cbn [fst snd exam_attempts].
  - by rewrite H1, H2, Hatt.
  - by rewrite H1, H2, Hatt.
Qed.

(** X11 at the scenario: with the answers the student gave held by the page,
    the store in which they were saved and the store in which they were not
    are graded alike, 2 points of 5. *)
Lemma grading_reads_the_page_not_the_rows_witness :
  answers Scenario.opened.2 = []
  ∧ (handleSubmitExam Scenario.written.1 5000 Scenario.opened.2).1
    = (handleSubmitExam Scenario.written.1 5000 Scenario.written.2).1
  ∧ exam_attempts (handleSubmitExam Scenario.written.1 5000 Scenario.opened.2).2
    = exam_attempts (handleSubmitExam Scenario.written.1 5000 Scenario.written.2).2.
Proof.
  split; [by vm_compute|].
  apply (grading_reads_the_page_not_the_rows Scenario.written.1 5000
           Scenario.written.2 Scenario.opened.2).
  - split; by vm_compute.
  - by vm_compute.
Defined.

(** X12.  A submission completes the attempt exactly when the score and the
    total it computed fit their [DECIMAL(5,2)] columns.  When one does not,
    as for every exam whose points add up to 1000 or more, the call ends in
    its catch branch with the attempt rows as they were, so the attempt stays
    open, while the answer rows have been graded all the same. *)
Theorem submission_needs_sums_that_fit c now st aid exam :
  Client.attemptId c = Some aid →
  Client.exam c = Some exam →
  ((handleSubmitExam c now st).1 = Submitted
   ↔ decimal_5_2 (sum_Z (earned st (Client.answers c) (exam_questions exam)))
     && decimal_5_2 (sum_Z (Question.points <$> exam_questions exam)) = true)
  ∧ ((handleSubmitExam c now st).1 ≠ Submitted →
       (handleSubmitExam c now st).1 = SubmitError
       ∧ exam_attempts (handleSubmitExam c now st).2 = exam_attempts st
       ∧ answers (handleSubmitExam c now st).2
         = regrade aid (Client.answers c) st (exam_questions exam) <$> answers st)
  ∧ (100000 ≤ sum_Z (Question.points <$> exam_questions exam) →
       (handleSubmitExam c now st).1 = SubmitError).
Proof.
  intros Ha He.
  destruct (handleSubmitExam_effect c now st)
    as (_ & [(_ & _ & [Hn|Hn])|(aid' & exam' & Ha' & He' & Hans & Hc)]);
    [congruence|congruence|].
  rewrite Ha in Ha'. rewrite He in He'. injection Ha' as <-. injection He' as <-.
  destruct Hc as [(Ho & Hs & Ht & Hatt)|(Ho & Hfit & Hatt)]; rewrite Ho.
  - split_and!; try done.
    + by rewrite Hs, Ht.
    + intros Hbig. unfold decimal_5_2 in Ht.
      apply bool_decide_eq_true in Ht. lia.
  - split_and!; try done. split; [done|]. by rewrite Hfit.
Qed.

(** X12 at an exam of two questions of 600 points each. *)
Lemma submission_needs_sums_that_fit_witness :
  sum_Z (Question.points <$> [Heavy.q5; Heavy.q6]) = 120000
  ∧ (handleSubmitExam Heavy.answered.1 5000 Heavy.answered.2).1 = SubmitError
  ∧ exam_attempts (handleSubmitExam Heavy.answered.1 5000 Heavy.answered.2).2
    = [Attempt.mk "h1" "e3" "s1" 1000 None None None 1]
  ∧ answers (handleSubmitExam Heavy.answered.1 5000 Heavy.answered.2).2
    = [Answer.mk "r5" "h1" "q5" (JNum 0) (Some true) (Some 60000)].
Proof.
  pose proof (submission_needs_sums_that_fit Heavy.answered.1 5000 Heavy.answered.2
                "h1" (mkExamData Heavy.e3 [Heavy.q5; Heavy.q6]) eq_refl eq_refl)
    as (_ & _ & Hbig).
  split; [by vm_compute|]. split; [apply Hbig; by vm_compute|].
  split; by vm_compute.
Defined.

Lemma hidden_key_outcome st held q :
  visible_question (exams st) (questions st) (Question.id q) = None →
  outcome st held q
  = (if auto_gradable (Question.question_type q)
     then mkGraded (Some false) (Some 0) else mkGraded None None).
Proof.
  intros Hv. unfold outcome, select_correct_answer. by rewrite Hv.
Qed.

Lemma hidden_keys_earn_nothing st held qs :
  (∀ q, q ∈ qs →
     visible_question (exams st) (questions st) (Question.id q) = None) →
  sum_Z (earned st held qs) = 0.
Proof.
  induction qs as [|q qs IH]; intros H; [done|].
  rewrite earned_cons, IH, hidden_key_outcome.
  - by destruct (auto_gradable _).
  - apply H, list_elem_of_here.
  - intros q' Hq'. apply H. by right.
Qed.

(** X13.  When the exam of the questions is no longer active at the time of
    the submission, the student can read no answer key back, and every
    answer is graded as incorrect: the attempt is completed with score 0,
    whatever the student answered. *)
Theorem submission_after_deactivation_scores_zero c now st aid exam :
  Client.attemptId c = Some aid →
  Client.exam c = Some exam →
  (∀ q q', q ∈ exam_questions exam → q' ∈ questions st →
     Question.id q' = Question.id q →
     ¬ Exists (fun e => Exam.id e = Question.exam_id q' ∧ Exam.status e = active)
              (exams st)) →
  decimal_5_2 (sum_Z (Question.points <$> exam_questions exam)) = true →
  (handleSubmitExam c now st).1 = Submitted
  ∧ (∀ a, a ∈ exam_attempts (handleSubmitExam c now st).2 → Attempt.id a = aid →
       Attempt.score a = Some 0)
  ∧ (∀ q, q ∈ exam_questions exam →
       isCorrect (outcome st (Client.answers c) q) ≠ Some true).
Proof.
  intros Ha He Hhidden Hfit.
  assert (Hnone : ∀ q, q ∈ exam_questions exam →
            visible_question (exams st) (questions st) (Question.id q) = None).
  { intros q Hq. apply inactive_exam_hides_questions.
    intros q' Hin Hid. by apply (Hhidden q q'). }
  assert (Hzero := hidden_keys_earn_nothing st (Client.answers c) _ Hnone).
  destruct (handleSubmitExam_effect c now st)
    as (_ & [(_ & _ & [Hn|Hn])|(aid' & exam' & Ha' & He' & _ & Hc)]);
    [congruence|congruence|].
  rewrite Ha in Ha'. rewrite He in He'. injection Ha' as <-. injection He' as <-.
  destruct Hc as [(Ho & _ & _ & Hatt)|(_ & Hbad & _)];
    [|by rewrite Hzero, Hfit in Hbad].
  split; [done|]. split.
  - intros a Hin Hid. rewrite Hatt in Hin.
    destruct (completed_rows _ _ _ _ _ _ Hin Hid) as (_ & -> & _).
    by rewrite Hzero.
  - intros q Hq. rewrite hidden_key_outcome by by apply Hnone.
    by destruct (auto_gradable _).
Qed.

(** X13 at the scenario: the student picked the right index, the teacher
    switched the exam to inactive, and the submission scores 0 of 5. *)
Lemma submission_after_deactivation_scores_zero_witness :
  Client.answers Scenario.written.1 !! "q1" = Some (JNum 1)
  ∧ (handleSubmitExam Scenario.written.1 5000 Deactivated.st).1 = Submitted
  ∧ ∀ a, a ∈ exam_attempts (handleSubmitExam Scenario.written.1 5000 Deactivated.st).2 →
         Attempt.id a = "a1" → Attempt.score a = Some 0.
Proof.
  split; [by vm_compute|].
  pose proof (submission_after_deactivation_scores_zero Scenario.written.1 5000
                Deactivated.st "a1" (mkExamData Scenario.e1 [Scenario.q1; Scenario.q2])
                eq_refl eq_refl) as H.
  destruct H as (Ho & Hs & _).
  - intros q q' _ Hq' _ Hex. apply (bool_decide_pack _) in Hex.
    revert Hq' Hex.
    change (questions Deactivated.st) with [Scenario.q2; Scenario.q1].
    intros [->|Hq']%elem_of_cons;
      [|apply list_elem_of_singleton in Hq' as ->]; by vm_compute.
  - by vm_compute.
  - split; [exact Ho|exact Hs].
Defined.
(** ** Saved answers and their way back *)

Lemma answers_map_snoc rows r :
  answers_map (rows ++ [r])
  = <[Answer.question_id r := Answer.answer_value r]> (answers_map rows).
Proof. unfold answers_map. by rewrite foldl_snoc. Qed.

(** The map a resume builds holds, for each question, the value of the last
    of the rows read for it. *)
Lemma answers_map_lookup rows q :
  answers_map rows !! q
  = Answer.answer_value <$> last (filter (fun r => Answer.question_id r = q) rows).
Proof.
  induction rows as [|r rows IH] using rev_ind; [done|].
  rewrite answers_map_snoc, filter_app, filter_cons, filter_nil.
  destruct (decide (Answer.question_id r = q)) as [<-|Hne].
  - by rewrite lookup_insert_eq, last_snoc.
  - by rewrite lookup_insert_ne, app_nil_r.
Qed.

Lemma filter_attempt_question (l : list Answer.t) aid q :
  filter (fun r => Answer.question_id r = q)
         (filter (fun r => Answer.attempt_id r = aid) l)
  = filter (same_answer aid q) l.
Proof.
  induction l as [|r l IH]; [done|].
  rewrite (filter_cons (fun r => Answer.attempt_id r = aid)),
          (filter_cons (same_answer aid q)).
  unfold same_answer at 1.
  destruct (decide (Answer.attempt_id r = aid)) as [Ha|Ha].
  - rewrite filter_cons, IH.
    destruct (decide (Answer.question_id r = q)) as [Hq|Hq].
    + by rewrite decide_True.
    + rewrite decide_False; [done|]. by intros [_ ?].
  - rewrite IH, decide_False; [done|]. by intros [? _].
Qed.

Lemma unique_row_alone (l : list Answer.t) r :
  NoDup (answer_key <$> l) → r ∈ l →
  filter (same_answer (Answer.attempt_id r) (Answer.question_id r)) l = [r].
Proof.
  induction l as [|x l IH]; intros Hnd Hin; [by apply elem_of_nil in Hin|].
  rewrite fmap_cons in Hnd. apply NoDup_cons in Hnd as [Hx Hnd].
  rewrite filter_cons. apply elem_of_cons in Hin as [->|Hin].
  - rewrite decide_True by done. f_equal. apply filter_none.
    intros (y & Hy & Ha & Hq)%Exists_exists. apply Hx.
    apply list_elem_of_fmap. exists y. split; [|done].
    unfold answer_key. by rewrite Ha, Hq.
  - rewrite decide_False; [by apply IH|].
    intros [Ha Hq]. apply Hx. apply list_elem_of_fmap. exists r. split; [|done].
    unfold answer_key. by rewrite Ha, Hq.
Qed.

(** X14.  When an attempt is taken up again in a store a history reached, the
    page gets back exactly the answers stored for that attempt: for every
    answer row of the attempt the value of the row under its question, and
    nothing under a question that has no row. *)
Theorem resume_restores_the_stored_answers history c examId user now uuid c' st' :
  loadExam c examId user now uuid (run empty_store history) = (Resumed c', st') →
  ∃ aid,
    Client.attemptId c' = Some aid
    ∧ (∀ r, r ∈ answers (run empty_store history) → Answer.attempt_id r = aid →
         Client.answers c' !! Answer.question_id r = Some (Answer.answer_value r))
    ∧ (∀ q, ¬ Exists (same_answer aid q) (answers (run empty_store history)) →
         Client.answers c' !! q = None).
Proof.
  intros Hload.
  apply loadExam_Resumed in Hload as (e & s & examData & a & _ & _ & _ & _ & _ & ->).
  exists (Attempt.id a). cbn [Client.attemptId Client.answers].
  split; [done|]. split.
  - intros r Hin Hr. rewrite answers_map_lookup. unfold select_answers.
    rewrite filter_attempt_question, <- Hr.
    rewrite unique_row_alone; [done| |done].
    apply (reachable_rows_distinct history).
  - intros q Hno. rewrite answers_map_lookup. unfold select_answers.
    by rewrite filter_attempt_question, filter_none.
Qed.

(** X14 at the timed exam: the pick of index 1 is back after the reload. *)
Lemma resume_restores_the_stored_answers_witness :
  Resumable.resumed = (Resumed Resumable.c1, run empty_store Resumable.history)
  ∧ Client.answers Resumable.c1 !! "q4" = Some (JNum 1)
  ∧ ∃ aid,
      Client.attemptId Resumable.c1 = Some aid
      ∧ (∀ r, r ∈ answers (run empty_store Resumable.history) →
           Answer.attempt_id r = aid →
           Client.answers Resumable.c1 !! Answer.question_id r
           = Some (Answer.answer_value r))
      ∧ (∀ q, ¬ Exists (same_answer aid q)
                       (answers (run empty_store Resumable.history)) →
           Client.answers Resumable.c1 !! q = None).
Proof.
  assert (H : loadExam Client.initial (Some "e2") (Some "s1") 601000 "b2"
                (run empty_store Resumable.history)
              = (Resumed Resumable.c1, run empty_store Resumable.history))
    by by vm_compute.
  split; [exact H|]. split; [by vm_compute|].
  exact (resume_restores_the_stored_answers Resumable.history Client.initial
           (Some "e2") (Some "s1") 601000 "b2" Resumable.c1 _ H).
Defined.

Lemma last_all_value (l : list Answer.t) v :
  l ≠ [] → Forall (fun r => Answer.answer_value r = v) l →
  Answer.answer_value <$> last l = Some v.
Proof.
  induction l as [|r l _] using rev_ind; [done|].
  intros _ [_ Hr]%Forall_app. rewrite Forall_singleton in Hr.
  by rewrite last_snoc, <- Hr.
Qed.

(** X15.  The first save of a question of an attempt adds one row with the
    value, which a resume then gives back, and touches the answer of no other
    question.  A save of a question that has a row adds none: resolved on the
    (attempt, question) pair it replaces the stored value, resolved on the
    primary key it is refused and the store keeps the value it had. *)
Theorem saved_answer_comes_back target c uuid q v st aid :
  Client.attemptId c = Some aid →
  Exists (fun a => Attempt.id a = aid) (exam_attempts st) →
  Exists (fun x => Question.id x = q) (questions st) →
  ¬ Exists (fun r => Answer.id r = uuid) (answers st) →
  (¬ Exists (same_answer aid q) (answers st) →
     answers (saveAnswer target c uuid q v st)
     = answers st ++ [Answer.mk uuid aid q v None (Some 0)]
     ∧ answers_map (select_answers (saveAnswer target c uuid q v st) aid) !! q
       = Some v
     ∧ ∀ q', q' ≠ q →
         answers_map (select_answers (saveAnswer target c uuid q v st) aid) !! q'
         = answers_map (select_answers st aid) !! q')
  ∧ (Exists (same_answer aid q) (answers st) →
       length (answers (saveAnswer target c uuid q v st)) = length (answers st)
       ∧ match target with
         | OnAttemptQuestion =>
             answers_map (select_answers (saveAnswer target c uuid q v st) aid) !! q
             = Some v
         | OnPrimaryKey => saveAnswer target c uuid q v st = st
         end).
Proof.
  intros Hc Ha Hq Hid. unfold saveAnswer, upsert_answer. rewrite Hc.
  rewrite (bool_decide_true _ Ha), (bool_decide_true _ Hq). cbn [negb].
  split.
  - intros Hno. rewrite (bool_decide_false _ Hno), (bool_decide_false _ Hid).
    cbn [answers]. split; [done|]. unfold select_answers. cbn [answers].
    rewrite !answers_map_lookup, filter_app, filter_cons, filter_nil.
    rewrite decide_True by done.
    split.
    + rewrite filter_app, filter_cons, filter_nil, decide_True by done.
      by rewrite last_snoc.
    + intros q' Hne. rewrite !answers_map_lookup, filter_app, filter_cons, filter_nil.
      rewrite decide_False by done. by rewrite app_nil_r.
  - intros Hex. rewrite (bool_decide_true _ Hex).
    destruct target; [done|]. cbn [answers]. split; [by rewrite length_fmap|].
    rewrite answers_map_lookup. unfold select_answers. cbn [answers].
    rewrite filter_attempt_question. apply last_all_value.
    + apply Exists_exists in Hex as (r & Hin & Hr).
      intros Hnil.
      assert (Hr' : overwrite_value aid q v r
                    ∈ filter (same_answer aid q)
                             (overwrite_value aid q v <$> answers st)).
      { apply list_elem_of_filter. split.
        - destruct (overwrite_value_keys aid q v r) as [_ Hk].
          unfold answer_key in Hk. injection Hk as Hk1 Hk2.
          unfold same_answer in *. by rewrite Hk1, Hk2.
        - apply list_elem_of_fmap. by exists r. }
      rewrite Hnil in Hr'. by apply elem_of_nil in Hr'.
    + apply Forall_forall. intros r' [Hs (r & -> & Hin)%list_elem_of_fmap]%list_elem_of_filter.
      unfold overwrite_value in *. case_bool_decide as Hd; [done|].
      by destruct Hd.
Qed.

(** X15 at the scenario's first pick. *)
Lemma saved_answer_comes_back_witness :
  answers (saveAnswer OnPrimaryKey Scenario.c0 "r1" "q1" (JNum 1) Scenario.opened.2)
  = answers Scenario.opened.2 ++ [Answer.mk "r1" "a1" "q1" (JNum 1) None (Some 0)]
  ∧ answers_map
      (select_answers
         (saveAnswer OnPrimaryKey Scenario.c0 "r1" "q1" (JNum 1) Scenario.opened.2)
         "a1") !! "q1"
    = Some (JNum 1).
Proof.
  pose proof (saved_answer_comes_back OnPrimaryKey Scenario.c0 "r1" "q1" (JNum 1)
                Scenario.opened.2 "a1" eq_refl) as H.
  destruct H as [H _].
  - apply (bool_decide_unpack _). by vm_compute.
  - apply (bool_decide_unpack _). by vm_compute.
  - apply (bool_decide_unpack _). by vm_compute.
  - destruct H as (H1 & H2 & _).
    + apply (bool_decide_unpack _). by vm_compute.
    + split; [exact H1|exact H2].
Defined.
(** ** The order of the questions on the page *)

From stdpp Require Import sorting.

Local Open Scope Z_scope.

Lemma insert_by_order_perm q l : insert_by_order q l ≡ₚ q :: l.
Proof.
  induction l as [|r l IH]; [done|]. cbn [insert_by_order].
  case_bool_decide; [done|]. by rewrite IH, Permutation_swap.
Qed.

Lemma sort_by_order_index_from acc l :
  foldl (fun acc q => insert_by_order q acc) acc l ≡ₚ acc ++ l.
Proof.
  revert acc. induction l as [|q l IH]; intros acc; cbn [foldl].
  - by rewrite app_nil_r.
  - rewrite IH, insert_by_order_perm. apply Permutation_middle.
Qed.

Lemma sort_by_order_index_perm l : sort_by_order_index l ≡ₚ l.
Proof. apply (sort_by_order_index_from [] l). Qed.

Lemma insert_by_order_sorted q l :
  Sorted (fun a b => Question.order_index a ≤ Question.order_index b) l →
  Sorted (fun a b => Question.order_index a ≤ Question.order_index b)
         (insert_by_order q l).
Proof.
  induction 1 as [|r l Hl IH Hr]; cbn [insert_by_order].
  - by repeat constructor.
  - case_bool_decide as Hlt.
    + constructor; [by constructor|]. constructor. lia.
    + constructor; [done|].
      destruct Hr as [|r' l' Hr']; cbn [insert_by_order].
      * constructor. lia.
      * case_bool_decide; constructor; [lia|done].
Qed.

Lemma sort_by_order_index_sorted l :
  Sorted (fun a b => Question.order_index a ≤ Question.order_index b)
         (sort_by_order_index l).
Proof.
  unfold sort_by_order_index.
  assert (Hacc : Sorted (fun a b => Question.order_index a ≤ Question.order_index b) [])
    by constructor.
  revert Hacc. generalize (@nil Question.t).
  induction l as [|q l IH]; intros acc Hacc; cbn [foldl]; [done|].
  by apply IH, insert_by_order_sorted.
Qed.

Lemma same_key_same_row {A K : Type} (f : A → K) (l : list A) x y :
  NoDup (f <$> l) → x ∈ l → y ∈ l → f x = f y → x = y.
Proof.
  intros Hnd [i Hi]%list_elem_of_lookup [j Hj]%list_elem_of_lookup Hxy.
  assert (i = j) as ->; [|congruence].
  apply (NoDup_lookup _ _ _ (f x) Hnd); rewrite list_lookup_fmap.
  - by rewrite Hi.
  - by rewrite Hj, Hxy.
Qed.

Lemma ascending_strictly (l : list Question.t) :
  NoDup (Question.order_index <$> l) →
  StronglySorted (fun a b => Question.order_index a ≤ Question.order_index b) l →
  StronglySorted (fun a b => Question.order_index a < Question.order_index b) l.
Proof.
  induction 2 as [|q l Hl IH Hq]; [constructor|].
  rewrite fmap_cons in H. apply NoDup_cons in H as [Hnew Hnd].
  constructor; [by apply IH|].
  apply Forall_forall. intros r Hr.
  rewrite Forall_forall in Hq. specialize (Hq r Hr).
  assert (Question.order_index q ≠ Question.order_index r); [|lia].
  intros Heq. apply Hnew. rewrite Heq. apply list_elem_of_fmap. by exists r.
Qed.

#[local] Instance order_index_le_trans :
  Transitive (fun a b : Question.t => Question.order_index a ≤ Question.order_index b).
Proof. intros a b c. cbv beta. lia. Qed.

(** X16.  When the questions of an exam have pairwise distinct [order_index],
    the order in which [loadExam] shows them does not depend on the order in
    which the query returned the rows: the page has the same rows, in
    strictly ascending [order_index]. *)
Theorem questions_are_shown_in_index_order (rows rows' : list Question.t) :
  NoDup (Question.order_index <$> rows) →
  rows' ≡ₚ rows →
  sort_by_order_index rows' = sort_by_order_index rows
  ∧ sort_by_order_index rows ≡ₚ rows
  ∧ StronglySorted (fun a b => Question.order_index a < Question.order_index b)
                   (sort_by_order_index rows).
Proof.
  intros Hnd Hperm.
  pose proof (sort_by_order_index_perm rows) as Hp.
  pose proof (sort_by_order_index_perm rows') as Hp'.
  pose proof (Sorted_StronglySorted _ _ (sort_by_order_index_sorted rows)) as Hs.
  pose proof (Sorted_StronglySorted _ _ (sort_by_order_index_sorted rows')) as Hs'.
  split; [|split; [done|]].
  - apply (StronglySorted_unique_strong
             (fun a b => Question.order_index a ≤ Question.order_index b));
      [|done|done|by rewrite Hp, Hp'].
    intros x y Hx Hy Hxy Hyx.
    rewrite Hp', Hperm in Hx. rewrite Hp in Hy.
    apply (same_key_same_row Question.order_index rows); [done|done|done|lia].
  - apply ascending_strictly; [|done]. by rewrite Hp.
Qed.

(** X16 at the scenario's exam, with its rows returned last first. *)
Lemma questions_are_shown_in_index_order_witness :
  sort_by_order_index (reverse (questions Scenario.catalog))
  = sort_by_order_index (questions Scenario.catalog)
  ∧ sort_by_order_index (questions Scenario.catalog) ≡ₚ questions Scenario.catalog
  ∧ StronglySorted (fun a b => Question.order_index a < Question.order_index b)
                   (sort_by_order_index (questions Scenario.catalog)).
Proof.
  apply (questions_are_shown_in_index_order (questions Scenario.catalog)
           (reverse (questions Scenario.catalog))).
  - apply (bool_decide_unpack _). by vm_compute.
  - apply reverse_Permutation.
Defined.
(** ** The question editor *)

Lemma keep_all_above {A : Type} (k j : nat) (l : list A) :
  (j < k)%nat →
  snd <$> filter (fun p => p.1 ≠ j) (imap (fun i x => ((k + i)%nat, x)) l) = l.
Proof.
  revert k. induction l as [|x l IH]; intros k Hjk; [done|].
  rewrite imap_cons, filter_cons. cbn [fst].
  rewrite decide_True by lia. rewrite fmap_cons. cbn [snd]. f_equal.
  rewrite <- (IH (S k)) at 2 by lia.
  do 2 f_equal. apply imap_ext. intros i y _. unfold compose. f_equal. lia.
Qed.

Lemma keep_others_from {A : Type} (k index : nat) (l : list A) :
  snd <$> filter (fun p => p.1 ≠ (k + index)%nat)
                 (imap (fun i x => ((k + i)%nat, x)) l)
  = delete index l.
Proof.
  revert k index. induction l as [|x l IH]; intros k index; [done|].
  rewrite imap_cons, filter_cons. cbn [fst].
  destruct index as [|index].
  - rewrite decide_False by lia. change (delete 0%nat (x :: l)) with l.
    rewrite <- (keep_all_above (S k) (k + 0) l) at 2 by lia.
    do 2 f_equal. apply imap_ext. intros i y _. unfold compose. f_equal. lia.
  - rewrite decide_True by lia. rewrite fmap_cons. cbn [snd].
    change (delete (S index) (x :: l)) with (x :: delete index l).
    f_equal. rewrite <- (IH (S k) index).
    replace (k + S index)%nat with (S k + index)%nat by lia.
    do 2 f_equal. apply imap_ext. intros i y _. unfold compose. f_equal. lia.
Qed.

(** Filtering on the position is the deletion at that position. *)
Lemma keep_others_delete {A : Type} (index : nat) (l : list A) :
  keep_others index l = delete index l.
Proof. apply (keep_others_from 0 index l). Qed.

Lemma length_delete_within {A : Type} (l : list A) (i : nat) :
  (i < length l)%nat → length (delete i l) = (length l - 1)%nat.
Proof. intros Hi. apply length_delete. by apply lookup_lt_is_Some. Qed.

Lemma sound_key_shape q :
  sound q → key_shape (Draft.question_type q) (Draft.correct_answer q).
Proof.
  unfold sound, key_shape. destruct (Draft.question_type q); [| |done|done].
  - by intros (opts & k & _ & _ & -> & _).
  - by intros (_ & b & ->).
Qed.

(** Each control of the form leaves the question well-formed. *)
Lemma handler_sound coerced_ge q ev u :
  sound q → rendered q ev = true → handler coerced_ge q ev = Some u →
  sound (apply_updates q u).
Proof.
  destruct q as [id text type options key points image].
  unfold sound, rendered, handler, updateOption, addOption, removeOption.
  cbn [Draft.question_type Draft.options Draft.correct_answer].
  intros Hq Hr Hu. destruct ev as [newType| | |index value| |index|index|value|value].
  - injection Hu as <-. destruct newType; cbn in *; [|eauto|eauto|done].
    exists [""; ""; ""; ""], 0%nat. cbn. repeat split; lia.
  - injection Hu as <-. exact Hq.
  - injection Hu as <-. exact Hq.
  - destruct type; try done. destruct Hq as (opts & k & -> & Hlen & -> & Hk).
    injection Hu as <-. cbn.
    exists (<[index := value]> opts), k. by rewrite length_insert.
  - destruct type; try done. destruct Hq as (opts & k & -> & Hlen & -> & Hk).
    injection Hu as <-. cbn. apply negb_true_iff, bool_decide_eq_false in Hr.
    exists (opts ++ [""]), k. rewrite length_app. cbn. repeat split; try done; lia.
  - destruct type; try done. destruct Hq as (opts & k & -> & Hlen & -> & Hk).
    apply andb_true_iff in Hr as [Hmany%bool_decide_eq_true Hin%bool_decide_eq_true].
    rewrite bool_decide_false in Hu by lia. injection Hu as <-. cbn.
    rewrite keep_others_delete, length_delete_within by done.
    exists (delete index opts). unfold ge_length. case_bool_decide as Hge.
    + exists 0%nat. rewrite length_delete_within by done. repeat split; try done; lia.
    + exists k. rewrite length_delete_within by done. repeat split; try done; lia.
  - destruct type; try done. destruct Hq as (opts & k & -> & Hlen & -> & Hk).
    injection Hu as <-. cbn. apply bool_decide_eq_true in Hr.
    by exists opts, index.
  - apply andb_true_iff in Hr as [->%bool_decide_eq_true _].
    injection Hu as <-. cbn. destruct Hq as [-> _]. eauto.
  - apply bool_decide_eq_true in Hr as ->.
    injection Hu as <-. cbn. destruct Hq as [-> _]. eauto.
Qed.

Lemma updateQuestion_ids id u questions :
  Draft.id <$> updateQuestion id u questions = Draft.id <$> questions.
Proof.
  unfold updateQuestion. rewrite <- list_fmap_compose. apply list_fmap_ext.
  intros i q _. unfold compose. by case_bool_decide.
Qed.

(** With distinct ids, [updateQuestion] at the id of the question in place
    [pos] rewrites that place alone. *)
Lemma updateQuestion_at questions pos q u :
  NoDup (Draft.id <$> questions) → questions !! pos = Some q →
  updateQuestion (Draft.id q) u questions = <[pos := apply_updates q u]> questions.
Proof.
  intros Hnd Hq. apply list_eq. intros i. unfold updateQuestion.
  rewrite list_lookup_fmap. destruct (decide (pos = i)) as [<-|Hne].
  - rewrite list_lookup_insert_eq by by eapply lookup_lt_Some.
    rewrite Hq. cbn. by rewrite bool_decide_true.
  - rewrite list_lookup_insert_ne by done.
    destruct (questions !! i) as [q'|] eqn:Hq'; [|done]. cbn.
    rewrite bool_decide_false; [done|]. intros Hid. apply Hne.
    apply (NoDup_lookup _ _ _ (Draft.id q) Hnd); rewrite list_lookup_fmap.
    + by rewrite Hq.
    + rewrite Hq'. cbn. by rewrite Hid.
Qed.

Lemma filter_all {A : Type} (P : A → Prop) `{!∀ x, Decision (P x)} (l : list A) :
  Forall P l → filter P l = l.
Proof.
  induction 1 as [|x l Hx _ IH]; [done|].
  by rewrite filter_cons, decide_True, IH.
Qed.

(** With distinct ids, [deleteQuestion] at the id of the question in place
    [pos] removes that place alone. *)
Lemma deleteQuestion_at questions pos q :
  NoDup (Draft.id <$> questions) → questions !! pos = Some q →
  deleteQuestion (Draft.id q) questions = delete pos questions.
Proof.
  unfold deleteQuestion. revert pos.
  induction questions as [|x l IH]; intros pos Hnd Hq; [done|].
  rewrite fmap_cons in Hnd. apply NoDup_cons in Hnd as [Hx Hnd].
  rewrite filter_cons. destruct pos as [|pos]; cbn in Hq.
  - injection Hq as ->. rewrite decide_False by (by intros ?). cbn.
    apply filter_all, Forall_forall. intros y Hy Hid. apply Hx.
    rewrite <- Hid. apply list_elem_of_fmap. by exists y.
  - rewrite decide_True.
    + cbn. f_equal. by apply IH.
    + intros Hid. apply Hx. rewrite Hid. apply list_elem_of_fmap. exists q.
      split; [done|]. by eapply list_elem_of_lookup_2.
Qed.

Lemma edit_sound coerced_ge ev questions questions' :
  NoDup (Draft.id <$> questions) → Forall sound questions →
  edit coerced_ge ev questions = Some questions' →
  Forall sound questions'.
Proof.
  intros Hnd Hall. destruct ev as [now|pos|pos ev]; cbn [edit].
  - intros [= <-]. apply Forall_app. split; [done|]. apply Forall_singleton.
    exists [""; ""; ""; ""], 0%nat. cbn. repeat split; lia.
  - destruct (questions !! pos) as [q|]; [|done]. cbn. intros [= <-].
    rewrite Forall_forall in Hall. apply Forall_forall.
    intros x [_ Hx]%list_elem_of_filter. by apply Hall.
  - destruct (questions !! pos) as [q|] eqn:Hq; [|done]. cbn.
    destruct (rendered q ev) eqn:Hr; [|done].
    destruct (handler coerced_ge q ev) as [u|] eqn:Hu; intros [= <-]; [|done].
    rewrite (updateQuestion_at _ pos) by done.
    apply Forall_insert; [done|].
    apply (handler_sound coerced_ge q ev u); [|done|done].
    rewrite Forall_forall in Hall. apply Hall. by eapply list_elem_of_lookup_2.
Qed.

Lemma edit_ids coerced_ge ev rest questions questions' :
  NoDup ((Draft.id <$> questions) ++ stamps (ev :: rest)) →
  edit coerced_ge ev questions = Some questions' →
  NoDup ((Draft.id <$> questions') ++ stamps rest).
Proof.
  destruct ev as [now|pos|pos ev]; cbn [edit stamps omap list_omap].
  - intros Hnd [= <-]. unfold addQuestion. rewrite fmap_app. cbn.
    by rewrite <- app_assoc.
  - destruct (questions !! pos) as [q|]; [|done]. cbn. intros Hnd [= <-].
    eapply sublist_NoDup; [exact Hnd|].
    apply sublist_app; [|done]. apply fmap_sublist, sublist_filter.
  - destruct (questions !! pos) as [q|]; [|done]. cbn.
    destruct (rendered q ev); [|done].
    destruct (handler coerced_ge q ev) as [u|]; intros Hnd [= <-]; [|done].
    by rewrite updateQuestion_ids.
Qed.

(** Over a history that gives no id twice the questions stay well-formed and
    keep distinct ids. *)
Lemma edits_sound coerced_ge history questions questions' :
  NoDup ((Draft.id <$> questions) ++ stamps history) → Forall sound questions →
  edits coerced_ge questions history = Some questions' →
  NoDup (Draft.id <$> questions') ∧ Forall sound questions'.
Proof.
  revert questions. induction history as [|ev rest IH]; intros questions Hnd Hall.
  - cbn. intros [= <-]. split; [|done]. by rewrite app_nil_r in Hnd.
  - cbn [edits]. destruct (edit coerced_ge ev questions) as [qs|] eqn:Hev; [|done].
    cbn. apply IH.
    + by eapply edit_ids.
    + eapply edit_sound; [|done|done]. by apply NoDup_app in Hnd as [? _].
Qed.

(** X17.  From an empty page, over any sequence of the editor's events in
    which no two questions were added in the same millisecond (the id of a
    question is the time it was added), every question the page holds is
    well-formed: a multiple_choice question has two to six options and the
    index of one of them for its key, a true_false question has a boolean
    key and no question is of type matching.  The rows [handleSubmit] sends
    for them then have keys of the shape the grading expects. *)
Theorem edited_questions_are_well_formed coerced_ge history questions examId :
  NoDup (stamps history) →
  edits coerced_ge [] history = Some questions →
  Forall sound questions
  ∧ Forall (fun p => key_shape (Payload.question_type p) (Payload.correct_answer p))
           (questionsToInsert examId questions).
Proof.
  intros Hnd Hrun.
  destruct (edits_sound coerced_ge history [] questions) as [_ Hall]; [done|done|done|].
  split; [done|]. apply Forall_forall. intros p [i Hp]%list_elem_of_lookup.
  unfold questionsToInsert in Hp. rewrite list_lookup_imap in Hp.
  destruct (questions !! i) as [q|] eqn:Hq; [|done]. injection Hp as <-.
  cbn [Payload.question_type Payload.correct_answer].
  apply sound_key_shape. rewrite Forall_forall in Hall. apply Hall.
  by eapply list_elem_of_lookup_2.
Qed.

(** X17 at the example session. *)
Lemma edited_questions_are_well_formed_witness :
  ∃ questions,
    edits Session.unread [] Session.history = Some questions
    ∧ Forall sound questions
    ∧ Forall (fun p => key_shape (Payload.question_type p) (Payload.correct_answer p))
             (questionsToInsert "e9" questions).
Proof.
  destruct (edits Session.unread [] Session.history) as [questions|] eqn:Hrun;
    [|by vm_compute in Hrun].
  exists questions. split; [done|].
  apply (edited_questions_are_well_formed Session.unread Session.history questions "e9");
    [|exact Hrun].
  apply (bool_decide_unpack _). by vm_compute.
Defined.
(** X18.  Removing an option of a multiple_choice question keeps the marked
    position, not the marked option.  With the key at position [k] and the
    option at [index] removed: if [k] is below [index] the same option stays
    marked; if [k] is at or above [index] and not the last position, the mark
    is on the option that followed the marked one; if [k] is the last
    position, the mark goes to the first of the options that are left. *)
Theorem removeOption_keeps_the_marked_position coerced_ge question opts k index :
  Draft.options question = Some opts →
  Draft.correct_answer question = JNum (Z.of_nat k) →
  (2 < length opts)%nat → (index < length opts)%nat → (k < length opts)%nat →
  ∃ k',
    removeOption coerced_ge question index
    = Some (Updates.mk None None (Some (Some (delete index opts)))
              (Some (JNum (Z.of_nat k'))) None)
    ∧ (k' < length (delete index opts))%nat
    ∧ ((k < index)%nat → k' = k ∧ delete index opts !! k' = opts !! k)
    ∧ ((index ≤ k < length opts - 1)%nat →
         k' = k ∧ delete index opts !! k' = opts !! S k)
    ∧ (k = (length opts - 1)%nat →
         k' = 0%nat
         ∧ delete index opts !! k' = opts !! (if decide (index = 0%nat) then 1 else 0)%nat).
Proof.
  intros Hopts Hkey Hmany Hindex Hk. unfold removeOption, ge_length.
  rewrite Hopts, Hkey, keep_others_delete, length_delete_within by done.
  rewrite bool_decide_false by lia.
  destruct (decide (k = length opts - 1)%nat) as [Hlast|Hinner].
  - exists 0%nat. rewrite bool_decide_true by lia.
    split; [done|]. split; [lia|]. split; [lia|]. split; [lia|].
    intros _. split; [done|]. destruct (decide (index = 0%nat)) as [->|Hpos].
    + by apply list_lookup_delete_ge.
    + apply list_lookup_delete_lt. lia.
  - exists k. rewrite bool_decide_false by lia.
    split; [done|]. split; [lia|]. split; [|split; [|lia]].
    + intros Hlt. split; [done|]. by apply list_lookup_delete_lt.
    + intros [Hge _]. split; [done|]. by apply list_lookup_delete_ge.
Qed.

(** X18 at a question with the options 3, 4, 5, 22 and 4 marked: once 3 is
    removed the mark is on 5. *)
Lemma removeOption_keeps_the_marked_position_witness :
  ∃ k',
    removeOption Session.unread
      (Draft.mk "1700000000000" "2 + 2 =" multiple_choice (Some ["3"; "4"; "5"; "22"])
         (JNum 1) 1%Qc None) 0
    = Some (Updates.mk None None (Some (Some ["4"; "5"; "22"]))
              (Some (JNum (Z.of_nat k'))) None)
    ∧ k' = 1%nat
    ∧ ["4"; "5"; "22"] !! k' = Some "5".
Proof.
  destruct (removeOption_keeps_the_marked_position Session.unread
              (Draft.mk "1700000000000" "2 + 2 =" multiple_choice
                 (Some ["3"; "4"; "5"; "22"]) (JNum 1) 1%Qc None)
              ["3"; "4"; "5"; "22"] 1 0 eq_refl eq_refl)
    as (k' & Hu & _ & _ & Hmoved & _); [cbn; lia|cbn; lia|cbn; lia|].
  exists k'. split; [exact Hu|].
  destruct Hmoved as [-> Hat]; [cbn; lia|]. split; [done|exact Hat].
Defined.

(** X19.  On a page reached over a history that gives no id twice, an event
    changes one question: adding appends a question with the new id, the
    delete button of a question removes the question in that place and no
    other, and a control of a form leaves every other place as it was. *)
Theorem an_edit_changes_one_question coerced_ge history ev questions questions' :
  NoDup (stamps history) →
  edits coerced_ge [] history = Some questions →
  edit coerced_ge ev questions = Some questions' →
  match ev with
  | AddQuestion now => ∃ q, questions' = questions ++ [q] ∧ Draft.id q = now
  | DeleteQuestion pos => questions' = delete pos questions
  | Form pos _ =>
      length questions' = length questions
      ∧ Draft.id <$> questions' = Draft.id <$> questions
      ∧ ∀ i, i ≠ pos → questions' !! i = questions !! i
  end.
Proof.
  intros Hnd Hrun.
  destruct (edits_sound coerced_ge history [] questions) as [Hids _]; [done|done|done|].
  destruct ev as [now|pos|pos ev]; cbn [edit].
  - intros [= <-]. by eexists.
  - destruct (questions !! pos) as [q|] eqn:Hq; [|done]. cbn. intros [= <-].
    by apply deleteQuestion_at.
  - destruct (questions !! pos) as [q|] eqn:Hq; [|done]. cbn.
    destruct (rendered q ev); [|done].
    destruct (handler coerced_ge q ev) as [u|]; intros [= <-]; [|done].
    split; [by unfold updateQuestion; rewrite length_fmap|].
    split; [by apply updateQuestion_ids|].
    intros i Hi. rewrite (updateQuestion_at questions pos q u) by done.
    by apply list_lookup_insert_ne.
Qed.

(** X19 at the example session, whose first question is then deleted. *)
Lemma an_edit_changes_one_question_witness :
  ∃ questions questions',
    edits Session.unread [] Session.history = Some questions
    ∧ edit Session.unread (DeleteQuestion 0) questions = Some questions'
    ∧ questions' = delete 0%nat questions.
Proof.
  destruct (edits Session.unread [] Session.history) as [questions|] eqn:Hrun;
    [|by vm_compute in Hrun].
  destruct (edit Session.unread (DeleteQuestion 0) questions) as [questions'|] eqn:Hev.
  - exists questions, questions'. split; [done|]. split; [done|].
    apply (an_edit_changes_one_question Session.unread Session.history
             (DeleteQuestion 0) questions questions'); [|exact Hrun|exact Hev].
    apply (bool_decide_unpack _). by vm_compute.
  - exfalso. destruct questions as [|q questions]; [|done].
    by vm_compute in Hrun.
Defined.
